(** * Data_Analyst_Agent_v3: code generation with fallback, sandboxed
      execution and an execution-validated repair loop

    A shallow embedding of
      - [llm_calls/new_gemini_llm.py]  (code extraction, cache, retry loop),
      - [llm_calls/claude_call.py] and [llm_calls/openai_call.py]
        (their [_clean_code]),
      - [plan_execution.py]  ([execute_plan_v1], [_run_and_validate_json],
        [_build_repair_prompt]),
    followed by the properties proved about them.

    Conventions of the embedding.
      - A Python [str] is a [list ascii]; a character is a code point in
        0..255 (Latin-1), and the character classes below are CPython's on
        that range.
      - Library calls whose implementation is not part of the repository
        ([re], [json], [subprocess], [hashlib], the three vendor clients,
        [PromptManager]) are either modelled after CPython or taken from an
        environment record.
      - [print] calls and [time.sleep] are not modelled. *)

From Stdlib Require Import ZArith NArith List Ascii String Bool Lia DecimalString.
From stdpp Require Import base option list gmap strings.

Set Default Proof Using "Type".
Local Open Scope N_scope.
Local Open Scope list_scope.

(* ===================================================================== *)
(** * Part I: definitions                                                 *)
(* ===================================================================== *)

(** ** Python strings *)

Module Text.

Abbreviation text := (list ascii).

(** A literal. *)
Definition T (s : string) : text := list_ascii_of_string s.

Definition ord (c : ascii) : N := N_of_ascii c.
Definition chr (n : N) : ascii := ascii_of_N n.

Definition between (lo hi : N) (c : ascii) : bool :=
  (lo <=? ord c) && (ord c <=? hi).

Definition is_chr (n : N) (c : ascii) : bool := ord c =? n.

Definition nl : text := [chr 10].
Definition dq : ascii := chr 34.
Definition sq : ascii := chr 39.
Definition backslash : ascii := chr 92.

(** [str.isspace], which is also [\s] of a [str] pattern. *)
Definition isspace (c : ascii) : bool :=
  between 9 13 c || between 28 32 c || is_chr 133 c || is_chr 160 c.

(** [\d] on this range. *)
Definition isdigit (c : ascii) : bool := between 48 57 c.

(** [\w] of a [str] pattern: alphanumeric (in Unicode's sense) or [_]. *)
Definition isword (c : ascii) : bool :=
  isdigit c || between 65 90 c || is_chr 95 c || between 97 122 c
  || is_chr 170 c || between 178 179 c || is_chr 181 c || between 185 186 c
  || between 188 190 c || between 192 214 c || between 216 246 c
  || between 248 255 c.

(** The line boundaries of [str.splitlines]. *)
Definition is_linebreak (c : ascii) : bool :=
  between 10 13 c || between 28 30 c || is_chr 133 c.

(** [str.isprintable] of one character. *)
Definition isprintable (c : ascii) : bool :=
  negb (between 0 31 c || between 127 160 c || is_chr 173 c).

(** [str.lower], character by character. *)
Definition lower_char (c : ascii) : ascii :=
  if between 65 90 c || (between 192 222 c && negb (is_chr 215 c))
  then chr (ord c + 32) else c.

Definition lower (s : text) : text := map lower_char s.

Definition eqc (a b : ascii) : bool := Ascii.eqb a b.

Fixpoint lstrip (s : text) : text :=
  match s with
  | c :: s' => if isspace c then lstrip s' else s
  | [] => []
  end.

Definition rstrip (s : text) : text := rev (lstrip (rev s)).

(** [s.strip()]. *)
Definition strip (s : text) : text := rstrip (lstrip s).

(** [s.startswith(p)]. *)
Fixpoint startswith (p s : text) : bool :=
  match p, s with
  | [], _ => true
  | a :: p', b :: s' => eqc a b && startswith p' s'
  | _ :: _, [] => false
  end.

(** [needle in hay]. *)
Fixpoint contains (needle hay : text) : bool :=
  startswith needle hay ||
  match hay with
  | [] => false
  | _ :: hay' => contains needle hay'
  end.

(** [needle] occurs in [hay], as a proposition. *)
Definition embeds (needle hay : text) : Prop :=
  exists pre post, hay = pre ++ needle ++ post.

(** [s.splitlines()]: [cur] is the line being read, reversed. *)
Fixpoint splitlines_go (cur s : text) : list text :=
  match s with
  | [] => match cur with [] => [] | _ => [rev cur] end
  | c :: s' =>
      if is_chr 13 c then
        match s' with
        | d :: s'' =>
            if is_chr 10 d then rev cur :: splitlines_go [] s''
            else rev cur :: splitlines_go [] s'
        | [] => [rev cur]
        end
      else if is_linebreak c then rev cur :: splitlines_go [] s'
      else splitlines_go (c :: cur) s'
  end.

Definition splitlines (s : text) : list text := splitlines_go [] s.

(** [NL.join(ls)], NL the newline. *)
Fixpoint join_nl (ls : list text) : text :=
  match ls with
  | [] => []
  | [l] => l
  | l :: ls' => l ++ nl ++ join_nl ls'
  end.

(** [str(n)] of an integer. *)
Definition str_int (z : Z) : text :=
  list_ascii_of_string (NilZero.string_of_int (Z.to_int z)).

Definition str_nat (n : nat) : text := str_int (Z.of_nat n).

(** [x or d] on a string. *)
Definition or_else (x d : text) : text :=
  match x with [] => d | _ => x end.

(** [f"{x}"] of a value that is a string or [None]. *)
Definition fmt_opt (x : option text) : text :=
  match x with Some s => s | None => T "None" end.

(** Truth value of a string or [None]. *)
Definition truthy (x : option text) : bool :=
  match x with Some (_ :: _) => true | _ => false end.

(** *** [repr] of a string, and [str] of a one-element tuple *)

Definition hex_digit (n : N) : ascii :=
  if n <? 10 then chr (48 + n) else chr (87 + n).

Definition repr_quote (s : text) : ascii :=
  if existsb (eqc sq) s && negb (existsb (eqc dq) s) then dq else sq.

Definition repr_char (q c : ascii) : text :=
  if eqc c q || eqc c backslash then [backslash; c]
  else if is_chr 9 c then [backslash; chr 116]
  else if is_chr 10 c then [backslash; chr 110]
  else if is_chr 13 c then [backslash; chr 114]
  else if isprintable c then [c]
  else [backslash; chr 120; hex_digit (ord c / 16); hex_digit (ord c mod 16)].

Definition repr (s : text) : text :=
  let q := repr_quote s in
  q :: flat_map (repr_char q) s ++ [q].

(** [str((s,))]. *)
Definition str_tuple1 (s : text) : text := T "(" ++ repr s ++ T ",)".

End Text.

(** ** Regular expressions, as [re] matches them

    A backtracking matcher in continuation-passing style: alternatives are
    tried left to right, a greedy repetition tries the longest run first
    and a lazy one the shortest.  Every repetition in the patterns of the
    repository ranges over one character class, so the matcher is
    structurally recursive. *)

Module Regex.
Import Text.

Inductive regex : Type :=
| Eps
| Chr (ignorecase : bool) (c : ascii)
| Cls (p : ascii -> bool)
| Cat (r1 r2 : regex)
| Alt (r1 r2 : regex)
| Opt (r : regex)
| Star (greedy : bool) (p : ascii -> bool)
| Grp (r : regex).

Definition Any : ascii -> bool := fun _ => true.

(** [p+] and [p+?]. *)
Definition Plus (greedy : bool) (p : ascii -> bool) : regex :=
  Cat (Cls p) (Star greedy p).

(** A literal string. *)
Fixpoint Lit (ignorecase : bool) (s : text) : regex :=
  match s with
  | [] => Eps
  | [c] => Chr ignorecase c
  | c :: s' => Cat (Chr ignorecase c) (Lit ignorecase s')
  end.

Fixpoint Seq (rs : list regex) : regex :=
  match rs with
  | [] => Eps
  | [r] => r
  | r :: rs' => Cat r (Seq rs')
  end.

Fixpoint Alts (r : regex) (rs : list regex) : regex :=
  match rs with
  | [] => r
  | r' :: rs' => Alt r (Alts r' rs')
  end.

Section Matcher.
Context {R : Type}.

(** The state of a match: what is left of the subject, and group 1. *)
Definition cont := text -> option text -> option R.

Fixpoint star_greedy (p : ascii -> bool) (s : text) (cap : option text)
    (k : cont) : option R :=
  match s with
  | c :: s' =>
      if p c then
        match star_greedy p s' cap k with
        | Some x => Some x
        | None => k s cap
        end
      else k s cap
  | [] => k s cap
  end.

Fixpoint star_lazy (p : ascii -> bool) (s : text) (cap : option text)
    (k : cont) : option R :=
  match k s cap with
  | Some x => Some x
  | None =>
      match s with
      | c :: s' => if p c then star_lazy p s' cap k else None
      | [] => None
      end
  end.

Fixpoint run (r : regex) (s : text) (cap : option text) (k : cont)
    : option R :=
  match r with
  | Eps => k s cap
  | Chr ci c =>
      match s with
      | x :: s' =>
          if (if ci then eqc (lower_char x) (lower_char c) else eqc x c)
          then k s' cap else None
      | [] => None
      end
  | Cls p =>
      match s with
      | x :: s' => if p x then k s' cap else None
      | [] => None
      end
  | Cat r1 r2 => run r1 s cap (fun s' cap' => run r2 s' cap' k)
  | Alt r1 r2 =>
      match run r1 s cap k with
      | Some x => Some x
      | None => run r2 s cap k
      end
  | Opt r1 =>
      match run r1 s cap k with
      | Some x => Some x
      | None => k s cap
      end
  | Star true p => star_greedy p s cap k
  | Star false p => star_lazy p s cap k
  | Grp r1 =>
      run r1 s cap
        (fun s' _ => k s' (Some (take (length s - length s') s)))
  end.
End Matcher.

(** [pattern.match(s)]: group 1 and the rest of the subject. *)
Definition re_match (r : regex) (s : text) : option (option text * text) :=
  run r s None (fun s' cap => Some (cap, s')).

(** [pattern.match(s) is not None]; also [pattern.search(s)] of a pattern
    that starts with [^] (no MULTILINE flag). *)
Definition matches (r : regex) (s : text) : bool :=
  match re_match r s with Some _ => true | None => false end.

(** [pattern.findall(s)] of a pattern with one group: the matches are
    found from left to right and do not overlap; [skip] counts the
    characters still covered by the last match. *)
Fixpoint findall_from (r : regex) (skip : nat) (s : text) : list text :=
  match skip with
  | S n =>
      match s with
      | [] => []
      | _ :: s' => findall_from r n s'
      end
  | O =>
      match re_match r s with
      | Some (cap, rest) =>
          default [] cap ::
          match s with
          | [] => []
          | _ :: s' =>
              findall_from r (length s - length rest - 1) s'
          end
      | None =>
          match s with
          | [] => []
          | _ :: s' => findall_from r 0 s'
          end
      end
  end.

Definition findall (r : regex) (s : text) : list text := findall_from r 0 s.

End Regex.

(** ** The code extractors *)

Module Extractor.
Import Text Regex.

Definition fence : text := T "```".

(** The pattern [```(?:python)?\s*([\s\S]*?)```] with [re.I]. *)
Definition _CODE_BLOCK_RE : regex :=
  Seq [Lit true fence; Opt (Lit true (T "python")); Star true isspace;
       Grp (Star false Any); Lit true fence].

Definition kw (word : text) : regex :=
  Seq [Lit false word; Plus true isspace; Plus true isword].

Definition kw_paren (word : text) : regex :=
  Seq [Lit false word; Plus true isspace; Plus true isword;
       Chr false (chr 40)].

Definition triple (c : ascii) : regex := Lit false [c; c; c].

(** [_CODE_LIKE_LINE] of new_gemini_llm.py:
    [^\s*(from\s+\w+|import\s+\w+|def\s+\w+\(|class\s+\w+\(|#|DDD|SSS)],
    where DDD is three double quotes and SSS three single quotes. *)
Definition _CODE_LIKE_LINE : regex :=
  Cat (Star true isspace)
      (Grp (Alts (kw (T "from"))
                 [kw (T "import"); kw_paren (T "def"); kw_paren (T "class");
                  Chr false (chr 35); triple dq; triple sq])).

(** [pat] of [_clean_code] in claude_call.py and openai_call.py:
    [^\s*(from\s+\w+|import\s+\w+|def\s+\w+|class\s+\w+|#|DDD|SSS)]. *)
Definition clean_code_pat : regex :=
  Cat (Star true isspace)
      (Grp (Alts (kw (T "from"))
                 [kw (T "import"); kw (T "def"); kw (T "class");
                  Chr false (chr 35); triple dq; triple sq])).

(** [for i, ln in enumerate(lines): if pat.search(ln): return
    NL.join(lines[i:]).strip()]; [None] when the loop ends. *)
Fixpoint scan_lines (pat : regex) (lines : list text) (i : nat)
    (rest : list text) : option text :=
  match rest with
  | [] => None
  | ln :: rest' =>
      if matches pat ln then Some (strip (join_nl (drop i lines)))
      else scan_lines pat lines (S i) rest'
  end.

(** The body shared by the three extractors, once the text is stripped. *)
Definition extract_stripped (pat : regex) (txt : text) : text :=
  let blocks := findall _CODE_BLOCK_RE txt in
  match last blocks with
  | Some b => strip b
  | None =>
      let lines := splitlines txt in
      match scan_lines pat lines 0 lines with
      | Some code => code
      | None => txt
      end
  end.

(** new_gemini_llm.py: the text may be [None]. *)
Definition _extract_code (txt : option text) : text :=
  let txt := strip (default [] txt) in
  extract_stripped _CODE_LIKE_LINE txt.

(** claude_call.py and openai_call.py (the same function in both). *)
Definition _clean_code (txt : text) : text :=
  let txt := strip txt in
  extract_stripped clean_code_pat txt.


End Extractor.

(** ** [json.loads], as far as accepting or rejecting a document goes

    Modelled after CPython 3.11's [json.decoder] and [json.scanner]: the
    result is the diagnostic of the [JSONDecodeError] or nothing.  The
    decoded value is not built, strings are scanned as the C accelerator
    does ([\u] escapes take four hexadecimal digits), and the interpreter's
    recursion limit and integer-size limit are not modelled. *)

Module Json.
Import Text Regex.

Inductive jres : Type :=
| JOk (rest : text) (pos : nat)      (* parsed up to [pos]; [rest] follows *)
| JErr (msg : text) (pos : nat)      (* JSONDecodeError(msg, doc, pos) *)
| JStop (pos : nat)                  (* StopIteration(pos) of scan_once *)
| JDeep.                             (* the fuel of the model ran out *)

(** [WHITESPACE.match(s, end).end()]. *)
Definition is_ws (c : ascii) : bool :=
  is_chr 32 c || is_chr 9 c || is_chr 10 c || is_chr 13 c.

Fixpoint skip_ws (s : text) (pos : nat) : text * nat :=
  match s with
  | c :: s' => if is_ws c then skip_ws s' (S pos) else (s, pos)
  | [] => (s, pos)
  end.

Definition ishex (c : ascii) : bool :=
  isdigit c || between 65 70 c || between 97 102 c.

(** The keys of [BACKSLASH]. *)
Definition is_escape (c : ascii) : bool :=
  existsb (eqc c) (dq :: T "\/bfnrt").

(** [scanstring(s, end)]: [s] starts after the opening quote, which is at
    index [begin]. *)
Fixpoint scanstring (begin : nat) (s : text) (pos : nat) : jres :=
  let unterminated := JErr (T "Unterminated string starting at") begin in
  match s with
  | [] => unterminated
  | c :: s' =>
      if eqc c dq then JOk s' (S pos)
      else if eqc c backslash then
        match s' with
        | [] => unterminated
        | e :: s'' =>
            if is_chr 117 e then
              match s'' with
              | h1 :: h2 :: h3 :: h4 :: s5 =>
                  if forallb ishex [h1; h2; h3; h4]
                  then scanstring begin s5 (pos + 6)
                  else JErr (T "Invalid \uXXXX escape") (S pos)
              | _ => JErr (T "Invalid \uXXXX escape") (S pos)
              end
            else if is_escape e then scanstring begin s'' (pos + 2)
            else JErr (T "Invalid \escape") pos
        end
      else if between 0 31 c then
        JErr (T "Invalid control character at") pos
      else scanstring begin s' (S pos)
  end.

(** [NUMBER_RE]: an optional minus sign, then 0 or a digit 1-9 followed
    by digits (group 1); optionally a dot and digits (group 2); optionally
    e or E, an optional sign and digits (group 3). *)
Definition NUMBER_RE : regex :=
  Seq [Grp (Cat (Opt (Chr false (chr 45)))
                (Alt (Chr false (chr 48))
                     (Cat (Cls (between 49 57)) (Star true isdigit))));
       Opt (Grp (Cat (Chr false (chr 46)) (Plus true isdigit)));
       Opt (Grp (Seq [Cls (fun c => is_chr 101 c || is_chr 69 c);
                      Opt (Cls (fun c => is_chr 45 c || is_chr 43 c));
                      Plus true isdigit]))].

(** A constant [w] at the head of [s]. *)
Definition keyword (w s : text) (pos : nat) : option jres :=
  if startswith w s then Some (JOk (drop (length w) s) (pos + length w))
  else None.

Definition first_of (xs : list (option jres)) (d : jres) : jres :=
  default d (hd_error (omap id xs)).

(** The branches of [_scan_once] for null, true, false, a number, NaN,
    Infinity and -Infinity, in that order. *)
Definition scalar (s : text) (pos : nat) : jres :=
  first_of
    [keyword (T "null") s pos; keyword (T "true") s pos;
     keyword (T "false") s pos;
     (fun '(_, rest) => JOk rest (pos + (length s - length rest)))
       <$> re_match NUMBER_RE s;
     keyword (T "NaN") s pos; keyword (T "Infinity") s pos;
     keyword (T "-Infinity") s pos]
    (JStop pos).

Definition expecting_value (r : jres) : jres :=
  match r with
  | JStop p => JErr (T "Expecting value") p
  | _ => r
  end.

Fixpoint scan_once (fuel : nat) (s : text) (pos : nat) {struct fuel} : jres :=
  match fuel with
  | O => JDeep
  | S fuel' =>
      match s with
      | [] => JStop pos
      | c :: s' =>
          if eqc c dq then scanstring pos s' (S pos)
          else if is_chr 123 c then JSONObject fuel' s' (S pos)
          else if is_chr 91 c then JSONArray fuel' s' (S pos)
          else scalar s pos
      end
  end

(** [JSONObject((s, end), ...)], [s] starting after the brace. *)
with JSONObject (fuel : nat) (s : text) (pos : nat) {struct fuel} : jres :=
  match fuel with
  | O => JDeep
  | S fuel' =>
      let name_expected p :=
        JErr (T "Expecting property name enclosed in double quotes") p in
      match s with
      | c :: s' =>
          if eqc c dq then object_items fuel' s' (S pos)
          else
            let '(s1, p1) := skip_ws s pos in
            match s1 with
            | c1 :: s1' =>
                if is_chr 125 c1 then JOk s1' (S p1)
                else if eqc c1 dq then object_items fuel' s1' (S p1)
                else name_expected p1
            | [] => name_expected p1
            end
      | [] => name_expected pos
      end
  end

(** The [while True] of [JSONObject]: [s] starts after the quote that
    opens a key. *)
with object_items (fuel : nat) (s : text) (pos : nat) {struct fuel} : jres :=
  match fuel with
  | O => JDeep
  | S fuel' =>
      match scanstring (pos - 1) s pos with
      | JOk s1 p1 =>
          let '(s2, p2) := skip_ws s1 p1 in
          match s2 with
          | c :: s3 =>
              if is_chr 58 c then
                let '(s4, p4) := skip_ws s3 (S p2) in
                match expecting_value (scan_once fuel' s4 p4) with
                | JOk s5 p5 =>
                    let '(s6, p6) := skip_ws s5 p5 in
                    match s6 with
                    | d :: s7 =>
                        if is_chr 125 d then JOk s7 (S p6)
                        else if is_chr 44 d then
                          let '(s8, p8) := skip_ws s7 (S p6) in
                          match s8 with
                          | q :: s9 =>
                              if eqc q dq then object_items fuel' s9 (S p8)
                              else
                                JErr (T "Expecting property name enclosed in double quotes") p8
                          | [] =>
                              JErr (T "Expecting property name enclosed in double quotes") p8
                          end
                        else JErr (T "Expecting ',' delimiter") p6
                    | [] => JErr (T "Expecting ',' delimiter") p6
                    end
                | r => r
                end
              else JErr (T "Expecting ':' delimiter") p2
          | [] => JErr (T "Expecting ':' delimiter") p2
          end
      | r => r
      end
  end

(** [JSONArray((s, end), ...)], [s] starting after the bracket. *)
with JSONArray (fuel : nat) (s : text) (pos : nat) {struct fuel} : jres :=
  match fuel with
  | O => JDeep
  | S fuel' =>
      let '(s1, p1) := skip_ws s pos in
      match s1 with
      | c :: s1' =>
          if is_chr 93 c then JOk s1' (S p1) else array_items fuel' s1 p1
      | [] => array_items fuel' s1 p1
      end
  end

(** The [while True] of [JSONArray]. *)
with array_items (fuel : nat) (s : text) (pos : nat) {struct fuel} : jres :=
  match fuel with
  | O => JDeep
  | S fuel' =>
      match expecting_value (scan_once fuel' s pos) with
      | JOk s1 p1 =>
          let '(s2, p2) := skip_ws s1 p1 in
          match s2 with
          | c :: s3 =>
              if is_chr 93 c then JOk s3 (S p2)
              else if is_chr 44 c then
                let '(s4, p4) := skip_ws s3 (S p2) in
                array_items fuel' s4 p4
              else JErr (T "Expecting ',' delimiter") p2
          | [] => JErr (T "Expecting ',' delimiter") p2
          end
      | r => r
      end
  end.

(** [str(JSONDecodeError(msg, doc, pos))]. *)
Definition errmsg (msg doc : text) (pos : nat) : text :=
  let before := take pos doc in
  let lineno := S (length (List.filter (is_chr 10) before)) in
  let colno :=
    fold_left (fun col c => if is_chr 10 c then 1%nat else S col) before 1%nat in
  msg ++ T ": line " ++ str_nat lineno ++ T " column " ++ str_nat colno
      ++ T " (char " ++ str_nat pos ++ T ")".

(** [json.loads(doc)]: [inl] the text of the JSONDecodeError, or [inr]
    when the document is one JSON value.  The fuel is enough for every
    document (lemma [json_loads_fuel_suffices]), so the last branch is
    never taken. *)
Definition json_loads (doc : text) : text + unit :=
  let '(s0, p0) := skip_ws doc 0 in
  match expecting_value (scan_once (3 * length doc + 3) s0 p0) with
  | JOk s1 p1 =>
      match skip_ws s1 p1 with
      | ([], _) => inr tt
      | (_ :: _, p2) => inl (errmsg (T "Extra data") doc p2)
      end
  | JErr msg p => inl (errmsg msg doc p)
  | JStop p => inl (errmsg (T "Expecting value") doc p)
  | JDeep => inl (T "maximum recursion depth exceeded")
  end.

End Json.

(** ** plan_execution.py *)

Module PlanExecution.
Import Text Json.

(** *** Exceptions, processes, backends *)

Inductive exn : Type :=
| TimeoutExpired                       (* subprocess.TimeoutExpired *)
| UnboundLocalError (var : text)
| OtherError (name msg : text).        (* OSError, UnicodeDecodeError, ... *)

(** What [subprocess.run] returns: a CompletedProcess. *)
Record proc : Type := Proc {
  returncode : Z;
  p_stdout : text;
  p_stderr : text
}.

(** How a child process behaves, in seconds of wall-clock time: it exits
    after [ticks] seconds, or never, or [subprocess.run] itself raises
    (the interpreter cannot be spawned, the output cannot be decoded). *)
Inductive child : Type :=
| Exits (ticks : nat) (p : proc)
| Loops
| Breaks (e : exn).

Inductive backend : Type := Claude | OpenAI | Gemini.

(** The outcome of one backend call: an exception, or the returned code. *)
Inductive reply : Type :=
| Raised (msg : text)
| Returned (code : text).

Record call : Type := Call {
  c_backend : backend;
  c_system : text;
  c_user : text;
  c_content : option text;
  c_reply : reply
}.

(** The (ok, output, error) triple of [_run_and_validate_json]. *)
Definition verdict : Type := bool * text * option text.

(** What [execute_plan_v1] returns: the dict with the key [error], a string,
    or [None]. *)
Inductive value : Type :=
| VDict (error : text)
| VStr (s : text)
| VNone.

Definition of_opt (x : option text) : value :=
  match x with Some s => VStr s | None => VNone end.

(** A one-element tuple holding a string. *)
Inductive tuple1 : Type := Tuple1 (s : text).

(** [str(x)] of such a tuple. *)
Definition str_of_tuple1 (x : tuple1) : text :=
  let 'Tuple1 s := x in str_tuple1 s.

(** The world outside the function: files by path, the backend calls made
    so far (oldest first), the number of children spawned, the number of
    clock readings, and the record of every finished run, in order
    (the audit files under generated_code/ hold the same, under names that
    depend on the clock). *)
Record world : Type := World {
  fs : gmap text text;
  calls : list call;
  spawned : nat;
  clock_reads : nat;
  runs : list (text * verdict)
}.

(** What the function cannot decide itself. *)
Record env (Plan DataFiles : Type) : Type := Env {
  (** the three imported [*_call_for_code] functions, which may answer
      differently from call to call *)
  backend_reply : backend -> list call -> text -> text -> option text -> reply;
  (** the behaviour of [sys.executable -X utf8 path] at its n-th start,
      on a script with the given content *)
  spawn : nat -> text -> child;
  (** the name [tempfile.NamedTemporaryFile] picks *)
  tmp_name : gmap text text -> text;
  (** [PromptManager.execute_s3] and [.execute_entire_plan_v2] *)
  execute_s3 : Plan -> text -> DataFiles -> text * text;
  execute_entire_plan_v2 : Plan -> text -> DataFiles -> text * text;
  (** [json.dumps(plan)] and [str(plan)] *)
  json_dumps : Plan -> text;
  str_plan : Plan -> text;
  (** [int(time.time()*1000)] at the n-th reading *)
  time_ms : nat -> Z
}.
Arguments backend_reply {Plan DataFiles}.
Arguments spawn {Plan DataFiles}.
Arguments tmp_name {Plan DataFiles}.
Arguments execute_s3 {Plan DataFiles}.
Arguments execute_entire_plan_v2 {Plan DataFiles}.
Arguments json_dumps {Plan DataFiles}.
Arguments str_plan {Plan DataFiles}.
Arguments time_ms {Plan DataFiles}.

(** *** Effects: state, exceptions, and calls that may never return *)

Inductive outcome (A : Type) : Type :=
| Ret (a : A)
| Raise (e : exn).
Arguments Ret {A}.
Arguments Raise {A}.

(** [None]: the computation has not returned within the time allowed. *)
Definition M (A : Type) : Type := world -> option (outcome A * world).

Definition ret {A} (a : A) : M A := fun w => Some (Ret a, w).
Definition raise {A} (e : exn) : M A := fun w => Some (Raise e, w).

Definition bind {A B} (m : M A) (k : A -> M B) : M B :=
  fun w =>
    match m w with
    | None => None
    | Some (Raise e, w') => Some (Raise e, w')
    | Some (Ret a, w') => k a w'
    end.

(** [try: m  except <those on which h is defined>: h e]. *)
Definition try_except {A} (m : M A) (h : exn -> option (M A)) : M A :=
  fun w =>
    match m w with
    | Some (Raise e, w') =>
        match h e with
        | Some handler => handler w'
        | None => Some (Raise e, w')
        end
    | r => r
    end.

(** [try: m  finally: fin]. *)
Definition try_finally {A} (m : M A) (fin : M unit) : M A :=
  fun w =>
    match m w with
    | None => None
    | Some (r, w') =>
        match fin w' with
        | None => None
        | Some (Raise e, w'') => Some (Raise e, w'')
        | Some (Ret _, w'') => Some (r, w'')
        end
    end.

Declare Scope eff_scope.
Delimit Scope eff_scope with eff.
Notation "x <- m ;; k" := (bind m (fun x => k))
  (at level 100, m at level 99, k at level 200, right associativity,
   only parsing) : eff_scope.
Notation "m ;;; k" := (bind m (fun _ => k))
  (at level 100, k at level 200, right associativity, only parsing)
  : eff_scope.
Local Open Scope eff_scope.

Definition set_fs (f : gmap text text) (w : world) : world :=
  World f (calls w) (spawned w) (clock_reads w) (runs w).

(** [with open(path, "w") as f: f.write(content)]. *)
Definition write_file (path content : text) : M unit :=
  fun w => Some (Ret tt, set_fs (<[path := content]> (fs w)) w).

(** [try: os.remove(path)  except OSError: pass]. *)
Definition remove_quietly (path : text) : M unit :=
  fun w => Some (Ret tt, set_fs (delete path (fs w)) w).

(** The output validation of [_run_and_validate_json] (lines 156-168). *)
Definition validate (p : proc) : verdict :=
  let stdout := strip (p_stdout p) in
  let stderr := strip (p_stderr p) in
  if negb (returncode p =? 0)%Z then
    (false, stdout, Some (or_else stderr (T "Script exited with non-zero status.")))
  else
    match json_loads stdout with
    | inr _ => (true, stdout, None)
    | inl je =>
        (false, stdout,
         Some (T "Invalid JSON output: " ++ je ++ nl ++ T "STDOUT:" ++ nl
               ++ stdout ++ nl ++ T "STDERR:" ++ nl ++ stderr))
    end.

Definition python_true_false (b : bool) : text :=
  if b then T "True" else T "False".

(** The text of the run_*.txt and retry_result_*.txt files. *)
Definition run_report (v : verdict) : text :=
  let '(ok, output, error) := v in
  T "ok=" ++ python_true_false ok ++ nl ++ output ++ nl
    ++ default [] error ++ nl.

Definition json_only : text :=
  nl ++ T "IMPORTANT: Final output must be valid JSON only. "
     ++ T "Always do: import json; print(json.dumps(result, ensure_ascii=False, indent=2)) "
     ++ T "at the end of the script. No other prints.".

Definition all_failed : value :=
  VDict (T "All LLMs failed to generate code").

(** The state of the variable [code] after the three try blocks: the
    generated code, or what the variable holds when Gemini raised. *)
Inductive chain_result : Type :=
| Generated (code : text)
| GeminiFailed (code_var : option text).

Section Pipeline.
Context {Plan DataFiles : Type}.
Variable E : env Plan DataFiles.
(** How many seconds the caller is observed waiting for one child. *)
Variable patience : nat.

(** [subprocess.run(..., timeout=timeout)] waiting for the child. *)
Fixpoint wait (timeout : option Z) (c : child) (elapsed fuel : nat)
    : option (outcome proc) :=
  match fuel with
  | O => None
  | S fuel' =>
      match c with
      | Breaks e => Some (Raise e)
      | Exits ticks p =>
          if (ticks <=? elapsed)%nat then Some (Ret p)
          else
            match timeout with
            | Some t =>
                if (t <=? Z.of_nat elapsed)%Z then Some (Raise TimeoutExpired)
                else wait timeout c (S elapsed) fuel'
            | None => wait timeout c (S elapsed) fuel'
            end
      | Loops =>
          match timeout with
          | Some t =>
              if (t <=? Z.of_nat elapsed)%Z then Some (Raise TimeoutExpired)
              else wait timeout c (S elapsed) fuel'
          | None => wait timeout c (S elapsed) fuel'
          end
      end
  end.

(** [subprocess.run([sys.executable, "-X", "utf8", path], stdout=PIPE,
    stderr=PIPE, text=True, env=env, timeout=timeout)]. *)
Definition subprocess_run (path : text) (timeout : option Z) : M proc :=
  fun w =>
    let c := spawn E (spawned w) (default [] (fs w !! path)) in
    let w' := World (fs w) (calls w) (S (spawned w)) (clock_reads w) (runs w) in
    match wait timeout c 0 patience with
    | None => None
    | Some r => Some (r, w')
    end.

(** [tempfile.NamedTemporaryFile("w", suffix=".py", delete=False, ...)],
    [tmp.write(code)], [code_path = tmp.name]. *)
Definition write_temp_script (code : text) : M text :=
  fun w =>
    let code_path := tmp_name E (fs w) in
    Some (Ret code_path, set_fs (<[code_path := code]> (fs w)) w).

Definition _run_and_validate_json (code : text) (timeout_sec : Z) : M verdict :=
  code_path <- write_temp_script code ;;
  try_finally
    (try_except
       (proc <- subprocess_run code_path None ;;
        ret (validate proc))
       (fun e =>
          match e with
          | TimeoutExpired =>
              (* [return False, stdout, ...]: [stdout] is not bound yet *)
              Some (raise (UnboundLocalError (T "stdout")))
          | _ => None
          end))
    (remove_quietly code_path).

Definition s3_present (plan : Plan) (questions : text) : bool :=
  contains (T "s3://") (lower questions)
  || contains (T "s3://") (lower (json_dumps E plan)).

Definition _build_repair_prompt (system_prompt : text) (plan : Plan)
    (questions : text) (data_files : DataFiles)
    (prev_code error : option text) : text * tuple1 :=
  let '(system_prompt, base_user_prompt) :=
    if s3_present plan questions
    then execute_s3 E plan questions data_files
    else execute_entire_plan_v2 E plan questions data_files in
  let repair_system_prompt :=
    strip system_prompt ++ nl ++ nl
      ++ T "IMPORTANT: Always print json.dumps(result)." ++ nl
      ++ T "- Never create dummy data for any type of source , try sourcing again if not executed the first time" in
  let repair_user_prompt :=
    Tuple1
      (base_user_prompt ++ nl ++ nl
         ++ T "Your previous code failed." ++ nl
         ++ T "If you the answers are correct only the json formatting is incorrect then take those answers and format it as json as required in the questions"
         ++ T "----- PREVIOUS CODE -----" ++ nl
         ++ fmt_opt prev_code ++ nl
         ++ T "----- ERROR / OUTPUT -----" ++ nl
         ++ fmt_opt error ++ nl
         ++ T "----- PLAN -----" ++ nl
         ++ str_plan E plan ++ nl
         ++ T "Please fix the issues and return only working Python code. "
         ++ T "Ensure the script ends with:" ++ nl
         ++ T "import json" ++ nl ++ T "print(json.dumps(result))"
         ++ T "Ensure that you do not create a dummy data") in
  (repair_system_prompt, repair_user_prompt).

Definition call_backend (b : backend) (system user : text)
    (content : option text) : M reply :=
  fun w =>
    let r := backend_reply E b (calls w) system user content in
    Some (Ret r,
          World (fs w) (calls w ++ [Call b system user content r])
                (spawned w) (clock_reads w) (runs w)).

(** [try: code = f(...)  except Exception: code = None]. *)
Definition code_of (r : reply) : option text :=
  match r with Returned c => Some c | Raised _ => None end.

(** The three try blocks, which [execute_plan_v1] has twice: before the
    first run (lines 33-57) and in every repair round (lines 83-104). *)
Definition generate_with_fallback (system user : text)
    (content : option text) : M chain_result :=
  r <- call_backend Claude system user content ;;
  let code := code_of r in
  code <- (if truthy code then ret code
           else r <- call_backend OpenAI system user content ;;
                ret (code_of r)) ;;
  match code with
  | Some (c :: cs) => ret (Generated (c :: cs))
  | _ =>
      r <- call_backend Gemini system user content ;;
      match r with
      | Returned c => ret (Generated c)
      | Raised _ => ret (GeminiFailed code)
      end
  end.

Definition now_ms : M Z :=
  fun w =>
    Some (Ret (time_ms E (clock_reads w)),
          World (fs w) (calls w) (spawned w) (S (clock_reads w)) (runs w)).

(** Save the code: temp.py and generated_code/<kind>_<ms>.py. *)
Definition save_code (kind code : text) : M unit :=
  write_file (T "temp.py") code ;;;
  ms <- now_ms ;;
  write_file (T "generated_code/" ++ kind ++ T "_" ++ str_int ms ++ T ".py") code.

(** Write generated_code/<kind>_<ms>.txt; the same verdict is appended
    to [runs]. *)
Definition save_report (kind code : text) (v : verdict) : M unit :=
  ms <- now_ms ;;
  write_file (T "generated_code/" ++ kind ++ T "_" ++ str_int ms ++ T ".txt")
             (run_report v) ;;;
  fun w =>
    Some (Ret tt,
          World (fs w) (calls w) (spawned w) (clock_reads w)
                (runs w ++ [(code, v)])).

(** The [for attempt in range(max_retries)] loop and the [return error]
    after it; [code] and [error] are the variables of the same name. *)
Fixpoint retry_loop (rounds : nat) (system_prompt : text) (plan : Plan)
    (questions : text) (data_files : DataFiles) (timeout_for_execution : Z)
    (code error : option text) : M value :=
  match rounds with
  | O => ret (of_opt error)
  | S rounds' =>
      let '(sys_repair_prompt, user_repair_prompt) :=
        _build_repair_prompt system_prompt plan questions data_files code error in
      r <- generate_with_fallback sys_repair_prompt
             (str_of_tuple1 user_repair_prompt) (Some questions) ;;
      match r with
      | GeminiFailed code' =>
          retry_loop rounds' system_prompt plan questions data_files
                     timeout_for_execution code' error
      | Generated code' =>
          save_code (T "retry") code' ;;;
          v <- _run_and_validate_json code' timeout_for_execution ;;
          save_report (T "retry_result") code' v ;;;
          let '(ok, output, error') := v in
          if ok then ret (VStr output)
          else retry_loop rounds' system_prompt plan questions data_files
                          timeout_for_execution (Some code') error'
      end
  end.

Definition execute_plan_v1 (plan : Plan) (questions : text)
    (data_files : DataFiles) (timeout_for_execution : Z) (max_retries : Z)
    : M value :=
  let '(system_prompt, user_prompt, max_retries) :=
    if s3_present plan questions
    then (execute_s3 E plan questions data_files, 8%Z)
    else (execute_entire_plan_v2 E plan questions data_files, max_retries) in
  let system_prompt := system_prompt ++ json_only in
  r <- generate_with_fallback system_prompt user_prompt None ;;
  match r with
  | GeminiFailed _ => ret all_failed
  | Generated code =>
      save_code (T "initial") code ;;;
      v <- _run_and_validate_json code timeout_for_execution ;;
      save_report (T "run") code v ;;;
      let '(ok, output, error) := v in
      if ok then ret (VStr output)
      else retry_loop (Z.to_nat max_retries) system_prompt plan questions
                      data_files timeout_for_execution (Some code) error
  end.

End Pipeline.

(** The world after a call that returned: the temporary file is written
    and removed again, one child was spawned. *)
Definition after_run {Plan DataFiles} (E : env Plan DataFiles) (w : world)
    : world :=
  World (delete (tmp_name E (fs w)) (fs w)) (calls w) (S (spawned w))
        (clock_reads w) (runs w).

(** The call the chain makes to backend [b] once the calls [before] were
    added to those of [w]. *)
Definition chain_call {Plan DataFiles} (E : env Plan DataFiles) (w : world)
    (system user : text) (content : option text) (before : list call)
    (b : backend) : call :=
  Call b system user content
       (backend_reply E b (calls w ++ before) system user content).

(** A reply that leaves [code] truthy. *)
Definition usable (r : reply) : bool := truthy (code_of r).


(** Every child exits with a non-zero code. *)
Definition children_fail {Plan DataFiles} (E : env Plan DataFiles)
    (patience : nat) : Prop :=
  forall n code, exists ticks p,
    spawn E n code = Exits ticks p /\ (ticks < patience)%nat
    /\ returncode p <> 0%Z.

(** Claude answers every call with usable code. *)
Definition claude_answers {Plan DataFiles} (E : env Plan DataFiles) : Prop :=
  forall history system user content,
    usable (backend_reply E Claude history system user content) = true.


(** The world after a backend chain that made the calls [new]. *)
Definition with_calls (w : world) (new : list call) : world :=
  World (fs w) (calls w ++ new) (spawned w) (clock_reads w) (runs w).

End PlanExecution.

(** ** llm_calls/new_gemini_llm.py: the caching backend adapter *)

Module GeminiAdapter.
Import Text Extractor.

(** The cache file cache/code_cache.json: absent, unreadable as JSON, or
    holding a dict from prompt keys to code. *)
Inductive cache_file : Type :=
| Missing
| Corrupt
| Holds (m : gmap text text).

(** What the call reads off a response: [resp.text], and
    [resp.candidates[0].content.parts[0].text] when that can be read. *)
Record response : Type := Response {
  resp_text : option text;
  resp_candidate : option text
}.

(** An exception of the client: [str(e)], and the [code] and [message]
    under [error] when [e.args[0]] is a dict. *)
Record api_error : Type := ApiError {
  err_str : text;
  err_data : option (option Z * option text)
}.

Inductive net_reply : Type :=
| Answers (r : response)
| Throws (e : api_error).

(** One [client.models.generate_content] request. *)
Record request : Type := Request {
  rq_model : text;
  rq_contents : text;
  rq_system_instruction : text
}.

Record gworld : Type := GWorld {
  cache : cache_file;
  net_calls : list request;          (* oldest first *)
  temp_py : option text              (* the file temp.py *)
}.

Record genv : Type := GEnv {
  (** the answer of the n-th request *)
  generate_content : nat -> request -> net_reply;
  (** [hashlib.sha256(data).hexdigest()] *)
  sha256_hexdigest : text -> text;
  (** the two model names, from the environment or the defaults *)
  MODEL_CHAIN : list text
}.

(** The result of the call: the returned code, or the RuntimeError. *)
Inductive gresult : Type :=
| GRet (code : text)
| GRaise (msg : text).

(** How the attempts ended. *)
Inductive loop_result : Type :=
| Done (code : text)
| Failed (last_err : option text).

Definition _ensure_cache (w : gworld) : gworld :=
  match cache w with
  | Missing => GWorld (Holds ∅) (net_calls w) (temp_py w)
  | _ => w
  end.

Definition _load_cache (w : gworld) : gmap text text * gworld :=
  let w := _ensure_cache w in
  match cache w with
  | Holds m => (m, w)
  | _ => (∅, w)
  end.

Definition _save_cache (c : gmap text text) (w : gworld) : gworld :=
  GWorld (Holds c) (net_calls w) (temp_py w).

(** The dict a cache file stands for. *)
Definition cache_dict (f : cache_file) : gmap text text :=
  match f with
  | Holds m => m
  | _ => ∅
  end.

(** No key of the cache is mapped to the empty string. *)
Definition cache_ok (w : gworld) : Prop :=
  forall key, cache_dict (cache w) !! key <> Some [].

Definition transient_status (status : option Z) : bool :=
  match status with
  | Some s => existsb (Z.eqb s) [429; 500; 502; 503; 504; 0]%Z
  | None => true
  end.

Definition _should_retry (status : option Z) (message : text) : bool :=
  transient_status status
  || contains (T "internal") (lower message)
  || contains (T "timeout") (lower message).

(** [f"{status}"]. *)
Definition fmt_status (status : option Z) : text :=
  match status with Some s => str_int s | None => T "None" end.

Section Adapter.
Variable E : genv.

Definition _prompt_key (system_prompt user_prompt : text) : text :=
  sha256_hexdigest E (system_prompt ++ nl ++ T "---" ++ nl ++ user_prompt).

(** The body of the [try] of one attempt, up to the test of [code_out]:
    the raw text with the extracted code, or what the [except] clause
    reads off the exception. *)
Definition attempt_once (model system_prompt user_prompt : text)
    (content : option text) (w : gworld)
    : (text * text + option Z * text) * gworld :=
  let contents :=
    match content with
    | Some content_str =>
        user_prompt ++ nl ++ nl ++ T "--- Additional Context ---" ++ nl
                    ++ content_str
    | None => user_prompt
    end in
  let rq := Request model contents system_prompt in
  let answer := generate_content E (length (net_calls w)) rq in
  let w := GWorld (cache w) (net_calls w ++ [rq]) (temp_py w) in
  match answer with
  | Throws e =>
      match err_data e with
      | Some (status, message) =>
          (inr (status, default (err_str e) message), w)
      | None => (inr (None, err_str e), w)
      end
  | Answers resp =>
      let txt := default [] (resp_text resp) in
      let txt :=
        match txt with
        | [] => default [] (resp_candidate resp)
        | _ => txt
        end in
      let code_out := _extract_code (Some txt) in
      match strip code_out with
      | [] => (inr (None, T "Empty code block returned."), w)
      | _ => (inl (txt, code_out), w)
      end
  end.

(** [for i in range(1, model_attempts + 1)], from [i] on, [n] rounds
    being left. *)
Fixpoint attempts (n : nat) (i model_attempts : Z)
    (model system_prompt user_prompt key : text) (content : option text)
    (prefer_cached : bool) (last_err : option text) (w : gworld)
    : loop_result * gworld :=
  match n with
  | O => (Failed last_err, w)
  | S n' =>
      match attempt_once model system_prompt user_prompt content w with
      | (inl (txt, code_out), w) =>
          let w :=
            if prefer_cached then
              let '(c, w) := _load_cache w in
              _save_cache (<[key := code_out]> c) w
            else w in
          (Done code_out, GWorld (cache w) (net_calls w) (Some txt))
      | (inr (status, msg), w) =>
          let last_err :=
            Some (T "(model=" ++ model ++ T ") attempt " ++ str_int i
                    ++ T "/" ++ str_int model_attempts ++ T ": "
                    ++ fmt_status status ++ T " " ++ msg) in
          if (i <? model_attempts)%Z && _should_retry status msg
          then attempts n' (i + 1)%Z model_attempts model system_prompt
                        user_prompt key content prefer_cached last_err w
          else (Failed last_err, w)
      end
  end.

(** [for model in MODEL_CHAIN]. *)
Fixpoint models_loop (models : list text) (attempts_left per_model_attempts : Z)
    (system_prompt user_prompt key : text) (content : option text)
    (prefer_cached : bool) (last_err : option text) (w : gworld)
    : loop_result * gworld :=
  match models with
  | [] => (Failed last_err, w)
  | model :: models' =>
      let model_attempts := Z.min per_model_attempts attempts_left in
      if (model_attempts <=? 0)%Z then (Failed last_err, w)
      else
        match attempts (Z.to_nat model_attempts) 1 model_attempts model
                       system_prompt user_prompt key content prefer_cached
                       last_err w with
        | (Done code, w) => (Done code, w)
        | (Failed last_err, w) =>
            let attempts_left := (attempts_left - model_attempts)%Z in
            if (attempts_left <=? 0)%Z then (Failed last_err, w)
            else models_loop models' attempts_left per_model_attempts
                             system_prompt user_prompt key content
                             prefer_cached last_err w
        end
  end.

(** What follows the cache lookup at the start: the attempts, then the
    last resort. *)
Definition generate_uncached (system_prompt user_prompt key : text)
    (content : option text) (total_attempts per_model_attempts : Z)
    (prefer_cached : bool) (w : gworld) : gresult * gworld :=
  match models_loop (MODEL_CHAIN E) total_attempts per_model_attempts
                    system_prompt user_prompt key content prefer_cached
                    None w with
  | (Done code, w) => (GRet code, w)
  | (Failed last_err, w) =>
      let '(c, w) := _load_cache w in
      match c !! key with
      | Some code => (GRet code, w)
      | None =>
          (GRaise (T "Gemini API call failed: "
                     ++ or_else (default [] last_err) (T "no further details")),
           w)
      end
  end.

(** [gemini_call_for_code]; the two backoff arguments only set how long
    the call sleeps between attempts. *)
Definition gemini_call_for_code (system_prompt user_prompt : text)
    (content : option text) (total_attempts per_model_attempts : Z)
    (prefer_cached : bool) (w : gworld) : gresult * gworld :=
  let key := _prompt_key system_prompt user_prompt in
  if prefer_cached then
    let '(c, w) := _load_cache w in
    match c !! key with
    | Some (x :: cached) => (GRet (x :: cached), w)
    | _ =>
        generate_uncached system_prompt user_prompt key content
                          total_attempts per_model_attempts prefer_cached w
    end
  else
    generate_uncached system_prompt user_prompt key content
                      total_attempts per_model_attempts prefer_cached w.

End Adapter.

(** Every attempt of a call with these prompts fails: the request raises,
    or the answer holds no code. *)
Definition attempts_fail (E : genv) (system_prompt user_prompt : text)
    (content : option text) : Prop :=
  forall model w, exists status msg,
    fst (attempt_once E model system_prompt user_prompt content w)
    = inr (status, msg).

End GeminiAdapter.

(** ** Concrete environments, for evaluating the definitions *)

Module Scenarios.
Import Text PlanExecution.

(** A plan that is a string, no data files, fixed prompts and a fixed
    temporary name; [claude] is what the Claude backend answers to every
    call (the two other backends raise) and [c] how every child behaves. *)
Definition scenario (claude : reply) (c : child) : env text unit :=
  {| backend_reply := fun b _ _ _ _ =>
       match b with
       | Claude => claude
       | OpenAI => Raised (T "OpenAI API call failed after 5 retries.")
       | Gemini => Raised (T "Gemini API call failed: no further details")
       end;
     spawn := fun _ _ => c;
     tmp_name := fun _ => T "/tmp/tmpk3v9x2.py";
     execute_s3 := fun plan questions _ =>
       (T "You write Python that reads from S3.",
        T "Plan: " ++ plan ++ nl ++ T "Questions: " ++ questions);
     execute_entire_plan_v2 := fun plan questions _ =>
       (T "You write Python for data analysis.",
        T "Plan: " ++ plan ++ nl ++ T "Questions: " ++ questions);
     json_dumps := fun plan => dq :: plan ++ [dq];
     str_plan := fun plan => plan;
     time_ms := fun n => (1762000000000 + Z.of_nat n)%Z |}.

Definition empty_world : world := World ∅ [] 0 0 [].

(** Claude returns a two-line script that fails whenever it is run. *)
Definition failing_scenario : env text unit :=
  scenario (Returned (T "import json" ++ nl ++ T "print(df)"))
           (Exits 1 (Proc 1 [] (T "NameError: name df is not defined" ++ nl))).

Definition sales_plan : text := T "load the file; sum the column amount".
Definition local_question : text := T "What is the total of sales.csv?".
Definition s3_question : text := T "What is the total of S3://sales/2024.csv?".

(** A script that never ends. *)
Definition looping_script : text := T "while True: pass".

(** A script that fails with a traceback ending in a newline. *)
Definition failing_child : child :=
  Exits 1 (Proc 1 [] (T "Traceback (most recent call last):" ++ nl
                        ++ T "NameError: name 'df' is not defined" ++ nl)).

Definition name_error : text :=
  T "Traceback (most recent call last):" ++ nl
    ++ T "NameError: name 'df' is not defined".

(** A script of two lines. *)
Definition two_line_script : text := T "import json" ++ nl ++ T "print(1)".



(** *** For the Gemini adapter *)

Import GeminiAdapter.

(** Every request is answered by [answer]; the hash is modelled by the
    identity, which has no collisions either. *)
Definition gemini_scenario (answer : net_reply) : genv :=
  {| generate_content := fun _ _ => answer;
     sha256_hexdigest := fun data => data;
     MODEL_CHAIN := [T "gemini-2.5-pro"; T "gemini-2.5-flash"] |}.

Definition fenced_answer : net_reply :=
  Answers (Response (Some (T "Here you go:" ++ nl ++ T "```python" ++ nl
                             ++ T "print(1)" ++ nl ++ T "```"))
                    None).


Definition server_error : net_reply :=
  Throws (ApiError (T "503 UNAVAILABLE")
                   (Some (Some 503%Z, Some (T "The model is overloaded.")))).

Definition fresh_gworld : gworld := GWorld Missing [] None.

Definition sys_prompt : text := T "Respond ONLY with executable Python code.".
Definition user_prompt : text := T "Print the number one.".

(** A cache file that already holds code for these prompts. *)
Definition primed_gworld : gworld :=
  GWorld (Holds {[ sys_prompt ++ nl ++ T "---" ++ nl ++ user_prompt
                   := T "print(1)" ]})
         [] None.

End Scenarios.

(** ** llm_calls/claude_call.py *)

Module ClaudeAdapter.
Import Text Extractor.

(** One block of [resp.content]: its [type] attribute when it has one, and
    its [text]. *)
Record block : Type := Block {
  block_type : option text;
  block_text : text
}.

(** What [client.messages.create] does: it returns a message with these
    content blocks, or raises. *)
Inductive answer : Type :=
| Content (blocks : list block)
| Fails (msg : text).

Record request : Type := Request {
  rq_system : text;
  rq_contents : text
}.

Record cenv : Type := CEnv {
  (** the answer to the n-th request *)
  messages_create : nat -> request -> answer
}.

(** The requests made so far, oldest first. *)
Definition cworld : Type := list request.

(** The result of the call: a returned value ([None] when the function
    falls off its end), or the RuntimeError. *)
Inductive cresult : Type :=
| CRet (code : option text)
| CRaise (msg : text).

Fixpoint eqt (a b : text) : bool :=
  match a, b with
  | [], [] => true
  | x :: a', y :: b' => eqc x y && eqt a' b'
  | _, _ => false
  end.

(** [getattr(part, "type", "text") == "text"]. *)
Definition is_text_block (b : block) : bool :=
  eqt (default (T "text") (block_type b)) (T "text").

(** The [raw_text] of an answer, when the [try] body reaches its
    [return]: the content is not empty and the joined text blocks,
    stripped, are not empty. *)
Definition raw_text (a : answer) : option text :=
  match a with
  | Fails _ => None
  | Content [] => None
  | Content blocks =>
      match strip (concat (map block_text (List.filter is_text_block blocks))) with
      | [] => None
      | t => Some t
      end
  end.

(** [contents]: the user prompt, with the rendered [content] appended when
    there is one. *)
Definition contents_of (user_prompt : text) (content : option text) : text :=
  match content with
  | Some content_str =>
      user_prompt ++ nl ++ nl ++ T "--- Additional Context ---" ++ nl
                  ++ content_str
  | None => user_prompt
  end.

Section Adapter.
Variable E : cenv.

(** [while attempt < max_retries]; [fuel] bounds the rounds that are left
    (the condition is false when it is used up). *)
Fixpoint claude_loop (fuel : nat) (attempt max_retries : Z)
    (system_prompt user_prompt : text) (content : option text) (w : cworld)
    : cresult * cworld :=
  match fuel with
  | O => (CRet None, w)
  | S fuel' =>
      if (attempt <? max_retries)%Z then
        let rq := Request system_prompt (contents_of user_prompt content) in
        let a := messages_create E (length w) rq in
        let w := w ++ [rq] in
        match raw_text a with
        | Some t => (CRet (Some (_clean_code t)), w)
        | None =>
            let attempt := (attempt + 1)%Z in
            if (attempt <? max_retries)%Z
            then claude_loop fuel' attempt max_retries system_prompt
                             user_prompt content w
            else (CRaise (T "Claude API call failed after "
                            ++ str_int max_retries ++ T " retries."), w)
        end
      else (CRet None, w)
  end.

(** [claude_call_for_code]; [retry_delay] only sets the sleep between
    attempts and [temperature] is not used by the source. *)
Definition claude_call_for_code (system_prompt user_prompt : text)
    (content : option text) (max_retries : Z) (w : cworld)
    : cresult * cworld :=
  claude_loop (Z.to_nat max_retries) 0 max_retries system_prompt user_prompt
              content w.

End Adapter.

(** The answer to the [j]-th request of a call that starts in [w]. *)
Definition answer_at (E : cenv) (w : cworld) (rq : request) (j : nat) : answer :=
  messages_create E (length w + j) rq.

End ClaudeAdapter.

(** ** llm_calls/openai_call.py *)

Module OpenAIAdapter.
Import Text Extractor.

(** What [client.responses.create] does: it returns a response whose
    [output_text] is this ([None] when the attribute is missing or None),
    or raises. *)
Inductive answer : Type :=
| Output (output_text : option text)
| Fails (msg : text).

Record request : Type := Request {
  rq_model : text;
  rq_system : text;
  rq_contents : text
}.

Record oenv : Type := OEnv {
  (** the answer to the n-th request *)
  responses_create : nat -> request -> answer
}.

Record oworld : Type := OWorld {
  requests : list request;           (* oldest first *)
  temp_py : option text              (* the file temp.py *)
}.

Inductive oresult : Type :=
| ORet (code : option text)
| ORaise (msg : text)                (* RuntimeError *)
| OZeroDivision.                     (* ZeroDivisionError *)

(** The [output_text] of an answer that passes the test of the [try]
    body. *)
Definition output_of (a : answer) : option text :=
  match a with
  | Output (Some (c :: t)) => Some (c :: t)
  | _ => None
  end.

Definition contents_of (user_prompt : text) (content : option text) : text :=
  match content with
  | Some content_str =>
      user_prompt ++ nl ++ nl ++ T "--- Additional Context ---" ++ nl
                  ++ content_str
  | None => user_prompt
  end.

(** [models_cycle[attempt % len(models_cycle)]], for a cycle that is not
    empty and [attempt >= 0]. *)
Definition model_at (models_cycle : list text) (attempt : Z) : text :=
  nth (Z.to_nat (attempt mod Z.of_nat (length models_cycle))) models_cycle [].

Section Adapter.
Variable E : oenv.

Fixpoint openai_loop (fuel : nat) (attempt max_retries : Z)
    (models_cycle : list text) (system_prompt user_prompt : text)
    (content : option text) (w : oworld) : oresult * oworld :=
  match fuel with
  | O => (ORet None, w)
  | S fuel' =>
      if (attempt <? max_retries)%Z then
        match models_cycle with
        | [] => (OZeroDivision, w)
        | _ :: _ =>
            let model_to_use := model_at models_cycle attempt in
            let rq := Request model_to_use system_prompt
                              (contents_of user_prompt content) in
            let a := responses_create E (length (requests w)) rq in
            let w := OWorld (requests w ++ [rq]) (temp_py w) in
            match output_of a with
            | Some t =>
                let raw_text := strip t in
                (ORet (Some (_clean_code raw_text)),
                 OWorld (requests w) (Some raw_text))
            | None =>
                let attempt := (attempt + 1)%Z in
                if (attempt <? max_retries)%Z
                then openai_loop fuel' attempt max_retries models_cycle
                                 system_prompt user_prompt content w
                else (ORaise (T "OpenAI API call failed after "
                                ++ str_int max_retries ++ T " retries."), w)
            end
        end
      else (ORet None, w)
  end.

(** [openai_call_for_code_responses]; [retry_delay] only sets the sleep
    between attempts. *)
Definition openai_call_for_code_responses (system_prompt user_prompt : text)
    (content : option text) (max_retries : Z) (models_cycle : list text)
    (w : oworld) : oresult * oworld :=
  openai_loop (Z.to_nat max_retries) 0 max_retries models_cycle system_prompt
              user_prompt content w.

End Adapter.

(** The request a call sends at its [j]-th attempt. *)
Definition request_at (models_cycle : list text)
    (system_prompt user_prompt : text) (content : option text) (j : nat)
    : request :=
  Request (model_at models_cycle (Z.of_nat j)) system_prompt
          (contents_of user_prompt content).

(** The answer to the [j]-th request of a call that starts in [w]. *)
Definition answer_at (E : oenv) (w : oworld) (models_cycle : list text)
    (system_prompt user_prompt : text) (content : option text) (j : nat)
    : answer :=
  responses_create E (length (requests w) + j)
    (request_at models_cycle system_prompt user_prompt content j).

End OpenAIAdapter.

(** ** Measures of a run of the pipeline *)

Module PipelineTerms.
Import Text PlanExecution.

(** The number of repair rounds [execute_plan_v1] allows itself. *)
Definition repair_budget {Plan DataFiles} (E : env Plan DataFiles)
    (plan : Plan) (questions : text) (max_retries : Z) : nat :=
  if s3_present E plan questions then 8%nat else Z.to_nat max_retries.

(** What an exception of [subprocess.run] is when it leaves
    [_run_and_validate_json]. *)
Definition as_raised (e : exn) : exn :=
  match e with
  | TimeoutExpired => UnboundLocalError (T "stdout")
  | _ => e
  end.

(** The first child of a run started in [w] behaves as [c], whatever the
    script. *)
Definition first_child {Plan DataFiles} (E : env Plan DataFiles) (w : world)
    (c : child) : Prop :=
  forall code, spawn E (spawned w) code = c.



(** [v] is backed by the last run recorded in [w]: the stdout of a run
    that passed, which is then one JSON value, or the error text of a run
    that did not, which is then not empty. *)
Definition backed_by_last_run (w : world) (v : value) : Prop :=
  exists code ok output error,
    last (runs w) = Some (code, (ok, output, error))
    /\ if ok then v = VStr output /\ Json.json_loads output = inr tt
       else exists e, error = Some e /\ e <> [] /\ v = VStr e.

End PipelineTerms.

(** ** Terms for the Gemini adapter's errors *)

Module GeminiTerms.
Import Text GeminiAdapter.



End GeminiTerms.

(** ** plan_Creation.py *)

Module Planner.
Import Text Regex Extractor.

(** One entry of [files]: the values of the three keys the planner
    reads, [None] for a key that is missing.  [files] is a list of dicts
    and the values that are present are strings. *)
Record file : Type := File {
  extension : option text;
  file_type : option text;             (* the key "type" *)
  source_type : option text
}.

(** What one attempt gets: the text
    [response.candidates[0].content.parts[0].text], or an exception, of
    the request or of reading that text. *)
Inductive answer : Type :=
| Candidate (txt : text)
| Fails (msg : text).

(** A request to the model gemini-2.0-flash. *)
Record request : Type := Request {
  rq_system : text;
  rq_contents : text
}.

(** The prompt manager and the client. *)
Record penv : Type := PEnv {
  general_json_planner_prompt : text -> list file -> text * text;
  s3_instructions : text;
  html_instructions_planning : text;
  csv_instructions : text;
  json_instructions : text;
  excel_instructions : text;
  pdf_instructions : text;
  (** the answer to the n-th request *)
  generate_content : nat -> request -> answer
}.

Record pworld : Type := PWorld {
  requests : list request;             (* oldest first *)
  plan_prompts : option text           (* the file plan_prompts.txt *)
}.

(** What the call gives: the value [json.loads] made of a document, a
    text, [None] when the function falls off its end, or an exception. *)
Inductive presult : Type :=
| PJson (doc : text)
| PText (plan_text : text)
| PNone
| PRuntimeError (msg : text)
| PAttributeError.

Definition eqt : text -> text -> bool := ClaudeAdapter.eqt.

(** [any(test(file) for file in files)]; [None] when a test raises
    before one has held. *)
Fixpoint any_file (test : file -> option bool) (files : list file)
    : option bool :=
  match files with
  | [] => Some false
  | f :: files' =>
      match test f with
      | None => None
      | Some true => Some true
      | Some false => any_file test files'
      end
  end.

(** [file.get("extension").lower() in exts]: an AttributeError when the
    key is missing. *)
Definition extension_in (exts : list text) (f : file) : option bool :=
  match extension f with
  | None => None
  | Some e => Some (existsb (eqt (lower e)) exts)
  end.

(** [file.get("extension").lower() == ".json" or
     file.get("type", "").lower() in {"application/json", "text/json"}]. *)
Definition is_json_file (f : file) : option bool :=
  match extension f with
  | None => None
  | Some e =>
      Some (eqt (lower e) (T ".json")
            || existsb (eqt (lower (default [] (file_type f))))
                       [T "application/json"; T "text/json"])
  end.

(** [any(f.get("source_type") == "html" for f in files)]. *)
Definition html_present (files : list file) : bool :=
  existsb (fun f => match source_type f with
                    | Some s => eqt s (T "html")
                    | None => false
                    end) files.

(** [("s3://" in questions) or ("s3_region=" in questions) or
     ("s3://" in files) or ("s3_region=" in files)]: no dict of [files]
    is equal to a string, so the two tests on [files] are false. *)
Definition s3_present (questions : text) : bool :=
  contains (T "s3://") questions || contains (T "s3_region=") questions.

(** [SEP.join(ls)], SEP being two newlines. *)
Fixpoint join_nlnl (ls : list text) : text :=
  match ls with
  | [] => []
  | [l] => l
  | l :: ls' => l ++ nl ++ nl ++ join_nlnl ls'
  end.

Definition isalpha_ascii (c : ascii) : bool :=
  between 65 90 c || between 97 122 c.

(** The pattern that starts at the start of the text with a fence, then
    has letters a-z or A-Z, as many as there are, then a newline. *)
Definition OPEN_FENCE_RE : regex :=
  Seq [Lit false fence; Star true isalpha_ascii; Chr false (chr 10)].

(** [re.sub(OPEN_FENCE_RE, EMPTY, s)]: the pattern can only match at the
    start of the text. *)
Definition sub_open_fence (s : text) : text :=
  match re_match OPEN_FENCE_RE s with
  | Some (_, rest) => rest
  | None => s
  end.

(** A newline and a fence at the end of the text, or before a newline
    that ends the text (what the dollar sign accepts). *)
Definition closes (s : text) : bool :=
  eqt s (nl ++ fence) || eqt s (nl ++ fence ++ nl).

(** [re.sub(CLOSE, EMPTY, s)], CLOSE being a newline, a fence and the
    dollar sign. *)
Fixpoint sub_close_fence (s : text) : text :=
  if closes s then drop 4 s
  else
    match s with
    | [] => []
    | c :: s' => c :: sub_close_fence s'
    end.

(** The plan made of the stripped text of an answer: the fences are
    removed, and the text is parsed as JSON when it can be. *)
Definition plan_of (plan_text : text) : presult :=
  let plan_text :=
    if startswith fence plan_text
    then sub_close_fence (sub_open_fence plan_text)
    else plan_text in
  match Json.json_loads plan_text with
  | inr _ => PJson plan_text
  | inl _ => PText plan_text
  end.

Section Agent.
Variable E : penv.

(** The list [file_prompts]; [None] when one of the tests on the files
    raises. *)
Definition file_prompts (questions : text) (files : list file)
    : option (list text) :=
  match any_file (extension_in [T ".csv"]) files with
  | None => None
  | Some csv_present =>
  match any_file is_json_file files with
  | None => None
  | Some json_present =>
  match any_file (extension_in [T ".xls"; T ".xlsx"]) files with
  | None => None
  | Some excel_present =>
  match any_file (extension_in [T ".pdf"]) files with
  | None => None
  | Some pdf_present =>
      Some ((if s3_present questions then [s3_instructions E]
             else if html_present files then [html_instructions_planning E]
             else [])
            ++ (if csv_present then [csv_instructions E] else [])
            ++ (if json_present then [json_instructions E] else [])
            ++ (if excel_present then [excel_instructions E] else [])
            ++ (if pdf_present then [pdf_instructions E] else []))
  end end end end.

(** [while attempt <= max_retries]; [fuel] bounds the rounds that are
    left (the condition is false when it is used up). *)
Fixpoint planner_loop (fuel : nat) (attempt max_retries : Z)
    (general_sys_prompt final_user_prompt : text) (w : pworld)
    : presult * pworld :=
  match fuel with
  | O => (PNone, w)
  | S fuel' =>
      if (attempt <=? max_retries)%Z then
        let rq := Request general_sys_prompt final_user_prompt in
        let a := generate_content E (length (requests w)) rq in
        let w := PWorld (requests w ++ [rq]) (plan_prompts w) in
        match a with
        | Candidate txt => (plan_of (strip txt), w)
        | Fails _ =>
            if (attempt =? max_retries)%Z
            then (PRuntimeError
                    (T "Gemini planner failed after maximum retries."), w)
            else planner_loop fuel' (attempt + 1) max_retries
                              general_sys_prompt final_user_prompt w
        end
      else (PNone, w)
  end.

Definition run_planner_agent_json_with_feedback_looping (questions : text)
    (files : list file) (max_retries : Z) (w : pworld) : presult * pworld :=
  let '(general_sys_prompt, general_user_prompt) :=
    general_json_planner_prompt E questions files in
  match file_prompts questions files with
  | None => (PAttributeError, w)
  | Some prompts =>
      let final_user_prompt := general_user_prompt in
      let general_sys_prompt :=
        match prompts with
        | [] => general_sys_prompt
        | _ => general_sys_prompt ++ nl ++ nl ++ join_nlnl prompts
        end in
      let w := PWorld (requests w)
                      (Some (general_sys_prompt ++ final_user_prompt)) in
      planner_loop (Z.to_nat (max_retries + 1)) 0 max_retries
                   general_sys_prompt final_user_prompt w
  end.

End Agent.

(** The system prompt the requests of a call carry. *)
Definition system_of (E : penv) (questions : text) (files : list file)
    (prompts : list text) : text :=
  match prompts with
  | [] => fst (general_json_planner_prompt E questions files)
  | _ => fst (general_json_planner_prompt E questions files)
           ++ nl ++ nl ++ join_nlnl prompts
  end.

(** The one request a call makes, again and again. *)
Definition request_of (E : penv) (questions : text) (files : list file)
    (prompts : list text) : request :=
  Request (system_of E questions files prompts)
          (snd (general_json_planner_prompt E questions files)).

(** The answer to the [j]-th request of a call that starts in [w]. *)
Definition answer_at (E : penv) (w : pworld) (rq : request) (j : nat)
    : answer :=
  generate_content E (length (requests w) + j) rq.

End Planner.

(* ===================================================================== *)
(** * Part II: properties                                                 *)
(* ===================================================================== *)

(** ** The code extractors *)

Module ExtractorFacts.
Import Text Regex Extractor.





(** The rules at work; [fence] is the three backquotes. *)
Example extract_last_block :
  _extract_code
    (Some (T "First try:" ++ nl ++ fence ++ T "python" ++ nl ++ T "x = 1" ++ nl
             ++ fence ++ nl ++ T "Final:" ++ nl ++ fence ++ T "Python" ++ nl
             ++ T "import json" ++ nl ++ T "print(json.dumps(2))" ++ nl
             ++ fence ++ nl ++ T "Done."))
  = T "import json" ++ nl ++ T "print(json.dumps(2))".
Proof. vm_compute. reflexivity. Qed.

Example extract_from_first_code_line :
  _extract_code
    (Some (T "Sure, here is the script." ++ nl ++ T "import json" ++ nl
             ++ T "print(json.dumps(2))" ++ nl))
  = T "import json" ++ nl ++ T "print(json.dumps(2))".
Proof. vm_compute. reflexivity. Qed.

(** The two line patterns differ on a [def] with no parenthesis after the
    name. *)
Example extract_def_without_paren :
  _extract_code (Some (T "ok" ++ nl ++ T "def f :" ++ nl ++ T "# end"))
  = T "# end"
  /\ _clean_code (T "ok" ++ nl ++ T "def f :" ++ nl ++ T "# end")
     = T "def f :" ++ nl ++ T "# end".
Proof. split; vm_compute; reflexivity. Qed.

Example extract_plain_text :
  _extract_code (Some (T "  I cannot help with that.  "))
  = T "I cannot help with that."
  /\ _extract_code None = [].
Proof. split; vm_compute; reflexivity. Qed.

End ExtractorFacts.

(** ** Occurrences of one text in another *)

Module TextFacts.
Import Text.

Lemma embeds_refl x : embeds x x.
Proof. exists [], []. by rewrite app_nil_r. Qed.

Lemma embeds_here x post : embeds x (x ++ post).
Proof. by exists [], post. Qed.

Lemma embeds_skip x pre y : embeds x y -> embeds x (pre ++ y).
Proof.
  intros (a & b & ->). exists (pre ++ a), b. by rewrite <- app_assoc.
Qed.

Lemma embeds_In c x y : embeds x y -> In c x -> In c y.
Proof.
  intros (a & b & ->) Hc. apply in_or_app. right. apply in_or_app. by left.
Qed.

(** [repr] writes a newline as a backslash and the letter n: no newline
    is left in its result. *)
Lemma repr_char_no_newline q c :
  q = dq \/ q = sq ->
  forallb (fun x => negb (is_chr 10 x)) (repr_char q c) = true.
Proof.
  intros [-> | ->];
    destruct c as [[] [] [] [] [] [] [] []]; vm_compute; reflexivity.
Qed.

Lemma repr_quote_cases s : repr_quote s = dq \/ repr_quote s = sq.
Proof. unfold repr_quote. destruct (_ && _); auto. Qed.

Lemma repr_no_newline s : forallb (fun x => negb (is_chr 10 x)) (repr s) = true.
Proof.
  unfold repr. pose proof (repr_quote_cases s) as Hq.
  set (q := repr_quote s) in *. clearbody q. simpl.
  apply andb_true_iff. split; [by destruct Hq as [-> | ->]|].
  rewrite forallb_app. apply andb_true_iff. split.
  - induction s as [|c s IH]; [done|]. simpl. rewrite forallb_app.
    by rewrite repr_char_no_newline, IH.
  - simpl. by destruct Hq as [-> | ->].
Qed.

Lemma str_tuple1_no_newline s : ~ In (chr 10) (str_tuple1 s).
Proof.
  unfold str_tuple1. intros Hin.
  assert (H : forallb (fun x => negb (is_chr 10 x)) (T "(" ++ repr s ++ T ",)") = true).
  { rewrite !forallb_app, repr_no_newline. reflexivity. }
  rewrite forallb_forall in H. specialize (H _ Hin). discriminate H.
Qed.

End TextFacts.

(** Finds [x] among the pieces of [p1 ++ p2 ++ ... ++ pn]. *)
Ltac find_embedded :=
  repeat first [ apply TextFacts.embeds_here
               | apply TextFacts.embeds_refl
               | apply TextFacts.embeds_skip ].

(** ** The JSON model never runs out of fuel *)

Module JsonFacts.
Import Text Regex Json.

(** A match leaves a suffix of its subject to the continuation. *)
Ltac stops_at s cap := exists s, cap; split; [simpl; lia | done].

Lemma star_greedy_shorter {R} p s cap (k : @cont R) x :
  star_greedy p s cap k = Some x ->
  exists s' cap', (length s' <= length s)%nat /\ k s' cap' = Some x.
Proof.
  induction s as [|c s IH]; simpl; intros H; [stops_at (@nil ascii) cap|].
  destruct (p c); [|stops_at (c :: s) cap].
  destruct (star_greedy p s cap k) eqn:Hs.
  - injection H as ->. destruct (IH eq_refl) as (s' & cap' & Hl & Hk).
    stops_at s' cap'.
  - stops_at (c :: s) cap.
Qed.

Lemma star_lazy_shorter {R} p s cap (k : @cont R) x :
  star_lazy p s cap k = Some x ->
  exists s' cap', (length s' <= length s)%nat /\ k s' cap' = Some x.
Proof.
  induction s as [|c s IH]; simpl; intros H.
  - destruct (k [] cap) eqn:Hk; [|done]. injection H as ->.
    stops_at (@nil ascii) cap.
  - destruct (k (c :: s) cap) eqn:Hk.
    + injection H as ->. stops_at (c :: s) cap.
    + destruct (p c); [|done]. destruct (IH H) as (s' & cap' & Hl & Hk').
      stops_at s' cap'.
Qed.

Lemma run_shorter {R} r : forall s cap (k : @cont R) x,
  run r s cap k = Some x ->
  exists s' cap', (length s' <= length s)%nat /\ k s' cap' = Some x.
Proof.
  induction r as [|ci c|p|r1 IH1 r2 IH2|r1 IH1 r2 IH2|r1 IH1|[|] p|r1 IH1];
    intros s cap k x; simpl; intros H.
  - stops_at s cap.
  - destruct s as [|y s]; [done|]. destruct (if ci then _ else _); [|done].
    stops_at s cap.
  - destruct s as [|y s]; [done|]. destruct (p y); [|done].
    stops_at s cap.
  - destruct (IH1 _ _ _ _ H) as (s1 & cap1 & Hl1 & H1).
    destruct (IH2 _ _ _ _ H1) as (s2 & cap2 & Hl2 & H2).
    stops_at s2 cap2.
  - destruct (run r1 s cap k) eqn:H1.
    + injection H as ->. exact (IH1 _ _ _ _ H1).
    + exact (IH2 _ _ _ _ H).
  - destruct (run r1 s cap k) eqn:H1.
    + injection H as ->. exact (IH1 _ _ _ _ H1).
    + stops_at s cap.
  - exact (star_greedy_shorter _ _ _ _ _ H).
  - exact (star_lazy_shorter _ _ _ _ _ H).
  - destruct (IH1 _ _ _ _ H) as (s1 & cap1 & Hl1 & H1).
    stops_at s1 (Some (take (length s - length s1) s)).
Qed.

Lemma re_match_shorter r s cap rest :
  re_match r s = Some (cap, rest) -> (length rest <= length s)%nat.
Proof.
  intros H. apply run_shorter in H as (s' & cap' & Hl & [= _ <-]). done.
Qed.

Lemma skip_ws_shorter s pos :
  (length (skip_ws s pos).1 <= length s)%nat.
Proof.
  revert pos. induction s as [|c s IH]; intros pos; simpl; [done|].
  destruct (is_ws c); simpl; [|done]. specialize (IH (S pos)). lia.
Qed.

Lemma scanstring_shorter begin s pos rest p :
  scanstring begin s pos = JOk rest p -> (length rest < length s)%nat.
Proof.
  revert pos. induction s as [s IH] using (induction_ltof1 _ (@length ascii)).
  unfold ltof in IH. intros pos. destruct s as [|c s]; simpl; [done|].
  destruct (eqc c dq); [intros [= <- _]; lia|].
  destruct (eqc c backslash).
  - destruct s as [|e s]; [done|]. destruct (is_chr 117 e).
    + destruct s as [|h1 [|h2 [|h3 [|h4 s]]]]; try done.
      destruct (_ && _); [|done].
      intros H. apply IH in H; simpl in *; lia.
    + destruct (is_escape e); [|done].
      intros H. apply IH in H; simpl in *; lia.
  - destruct (between 0 31 c); [done|].
    intros H. apply IH in H; simpl in *; lia.
Qed.

Lemma keyword_shorter w s pos rest p :
  keyword w s pos = Some (JOk rest p) -> (length rest <= length s)%nat.
Proof.
  unfold keyword. destruct (startswith w s); [|done].
  intros [= <- _]. rewrite length_drop. lia.
Qed.

Lemma keyword_ok w s pos r :
  keyword w s pos = Some r -> exists rest p, r = JOk rest p.
Proof.
  unfold keyword. destruct (startswith w s); [|done].
  intros [= <-]. by eexists _, _.
Qed.

Lemma scalar_cases s pos :
  scalar s pos = JStop pos
  \/ exists rest p, scalar s pos = JOk rest p /\ (length rest <= length s)%nat.
Proof.
  unfold scalar, first_of. simpl.
  repeat match goal with
         | |- context [keyword ?w s pos] =>
             let H := fresh "H" in
             destruct (keyword w s pos) as [r|] eqn:H;
             [ destruct (keyword_ok _ _ _ _ H) as (rest & p & ->);
               apply keyword_shorter in H; right; by eexists _, _ | ]
         | |- context [re_match NUMBER_RE s] =>
             let H := fresh "H" in
             destruct (re_match NUMBER_RE s) as [[cap rest]|] eqn:H;
             [ apply re_match_shorter in H; right; by eexists _, _ | ]
         end.
  by left.
Qed.

Lemma skip_ws_eq s pos s' pos' :
  skip_ws s pos = (s', pos') -> (length s' <= length s)%nat.
Proof. intros H. pose proof (skip_ws_shorter s pos). by rewrite H in *. Qed.

(** One step of case analysis on the parsers. *)
Ltac parse_step :=
  match goal with
  | H : skip_ws _ _ = (_, _) |- _ => apply skip_ws_eq in H
  | H : scanstring _ _ _ = JOk _ _ |- _ => apply scanstring_shorter in H
  | |- context [skip_ws ?s ?p] => destruct (skip_ws s p) as [? ?] eqn:?
  | |- context [match scanstring ?b ?s ?p with _ => _ end] =>
      destruct (scanstring b s p) eqn:?
  | |- context [expecting_value ?r] =>
      destruct r eqn:?; cbn [expecting_value]
  | |- context [match ?s with [] => _ | _ :: _ => _ end] =>
      is_var s; destruct s as [|? ?]
  | |- context [if ?b then _ else _] => destruct b
  end.

Lemma parsers_shorter fuel :
  (forall s pos rest p, scan_once fuel s pos = JOk rest p ->
      (length rest <= length s)%nat)
  /\ (forall s pos rest p, JSONObject fuel s pos = JOk rest p ->
      (length rest <= length s)%nat)
  /\ (forall s pos rest p, object_items fuel s pos = JOk rest p ->
      (length rest <= length s)%nat)
  /\ (forall s pos rest p, JSONArray fuel s pos = JOk rest p ->
      (length rest <= length s)%nat)
  /\ (forall s pos rest p, array_items fuel s pos = JOk rest p ->
      (length rest <= length s)%nat).
Proof.
  induction fuel as [|fuel (IHscan & IHobj & IHitems & IHarr & IHelems)];
    [by repeat split|].
  repeat split; intros s pos rest p; cbn [scan_once JSONObject object_items
                                           JSONArray array_items].
  - destruct s as [|c s]; [done|].
    destruct (eqc c dq).
    { intros H. apply scanstring_shorter in H. simpl. lia. }
    destruct (is_chr 123 c).
    { intros H. apply IHobj in H. simpl. lia. }
    destruct (is_chr 91 c).
    { intros H. apply IHarr in H. simpl. lia. }
    destruct (scalar_cases (c :: s) pos) as [-> | (r & q & -> & Hl)]; [done|].
    by intros [= <- _].
  - repeat parse_step; try done;
      repeat match goal with
             | |- _ = JOk _ _ -> _ => intros [= <- _] || intros ?H
             | H : object_items fuel _ _ = JOk _ _ |- _ => apply IHitems in H
             end; simpl in *; lia.
  - repeat parse_step; try done;
      repeat match goal with
             | |- _ = JOk _ _ -> _ => intros [= <- _] || intros ?H
             | H : object_items fuel _ _ = JOk _ _ |- _ => apply IHitems in H
             | H : scan_once fuel _ _ = JOk _ _ |- _ => apply IHscan in H
             end; simpl in *; try lia.
  - repeat parse_step; try done;
      repeat match goal with
             | |- _ = JOk _ _ -> _ => intros [= <- _] || intros ?H
             | H : array_items fuel _ _ = JOk _ _ |- _ => apply IHelems in H
             end; simpl in *; lia.
  - repeat parse_step; try done;
      repeat match goal with
             | |- _ = JOk _ _ -> _ => intros [= <- _] || intros ?H
             | H : array_items fuel _ _ = JOk _ _ |- _ => apply IHelems in H
             | H : scan_once fuel _ _ = JOk _ _ |- _ => apply IHscan in H
             end; simpl in *; try lia.
Qed.

Lemma scan_once_shorter fuel s pos rest p :
  scan_once fuel s pos = JOk rest p -> (length rest <= length s)%nat.
Proof. apply (parsers_shorter fuel). Qed.

Lemma scanstring_not_deep begin s pos : scanstring begin s pos <> JDeep.
Proof.
  revert pos. induction s as [s IH] using (induction_ltof1 _ (@length ascii)).
  unfold ltof in IH. intros pos. destruct s as [|c s]; simpl; [done|].
  destruct (eqc c dq); [done|]. destruct (eqc c backslash).
  - destruct s as [|e s]; [done|]. destruct (is_chr 117 e).
    + destruct s as [|h1 [|h2 [|h3 [|h4 s]]]]; try done.
      destruct (_ && _); [|done]. apply IH. simpl. lia.
    + destruct (is_escape e); [|done]. apply IH. simpl. lia.
  - destruct (between 0 31 c); [done|]. apply IH. simpl. lia.
Qed.

Lemma scalar_not_deep s pos : scalar s pos <> JDeep.
Proof.
  by destruct (scalar_cases s pos) as [-> | (r & q & -> & _)].
Qed.

(** Three units of fuel for every character are enough. *)
Lemma parsers_fuel fuel :
  (forall s pos, (3 * length s + 1 <= fuel)%nat ->
      scan_once fuel s pos <> JDeep)
  /\ (forall s pos, (3 * length s + 3 <= fuel)%nat ->
      JSONObject fuel s pos <> JDeep)
  /\ (forall s pos, (3 * length s + 2 <= fuel)%nat ->
      object_items fuel s pos <> JDeep)
  /\ (forall s pos, (3 * length s + 3 <= fuel)%nat ->
      JSONArray fuel s pos <> JDeep)
  /\ (forall s pos, (3 * length s + 2 <= fuel)%nat ->
      array_items fuel s pos <> JDeep).
Proof.
  induction fuel as [|fuel (IHscan & IHobj & IHitems & IHarr & IHelems)];
    [repeat split; intros; lia|].
  repeat split; intros s pos Hfuel; cbn [scan_once JSONObject object_items
                                           JSONArray array_items].
  - destruct s as [|c s]; [done|].
    destruct (eqc c dq); [apply scanstring_not_deep|].
    destruct (is_chr 123 c); [apply IHobj; simpl in *; lia|].
    destruct (is_chr 91 c); [apply IHarr; simpl in *; lia|].
    apply scalar_not_deep.
  - repeat parse_step; try done; apply IHitems; simpl in *; lia.
  - repeat parse_step; try done;
      repeat match goal with
             | H : scan_once fuel _ _ = JOk _ _ |- _ =>
                 apply scan_once_shorter in H
             end;
      first [ apply IHitems; simpl in *; lia
            | exfalso;
              match goal with
              | H : scanstring _ _ _ = JDeep |- _ =>
                  by apply scanstring_not_deep in H
              | H : scan_once fuel _ _ = JDeep |- _ =>
                  revert H; apply IHscan; simpl in *; lia
              end ].
  - repeat parse_step; try done; apply IHelems; simpl in *; lia.
  - repeat parse_step; try done;
      repeat match goal with
             | H : scan_once fuel _ _ = JOk _ _ |- _ =>
                 apply scan_once_shorter in H
             end;
      first [ apply IHelems; simpl in *; lia
            | exfalso;
              match goal with
              | H : scan_once fuel _ _ = JDeep |- _ =>
                  revert H; apply IHscan; simpl in *; lia
              end ].
Qed.

(** [json_loads] never takes the branch for exhausted fuel. *)
Lemma json_loads_fuel_suffices doc :
  scan_once (3 * length doc + 3) (skip_ws doc 0).1 (skip_ws doc 0).2 <> JDeep.
Proof.
  apply (parsers_fuel (3 * length doc + 3)).
  pose proof (skip_ws_shorter doc 0). lia.
Qed.

End JsonFacts.

(** ** The sandboxed executor and the output validator *)

Module ExecutorFacts.
Import Text Json PlanExecution Scenarios TextFacts.

(** Without a timeout, [subprocess.run] returns exactly when the child
    exits. *)
Lemma wait_forever_on_loop elapsed fuel : wait None Loops elapsed fuel = None.
Proof. revert elapsed. induction fuel as [|fuel IH]; intros; simpl; auto. Qed.

Lemma wait_until_exit ticks p elapsed fuel :
  (ticks < elapsed + fuel)%nat -> (0 < fuel)%nat ->
  wait None (Exits ticks p) elapsed fuel = Some (Ret p).
Proof.
  revert elapsed. induction fuel as [|fuel IH]; intros elapsed Hlt Hpos; [lia|].
  simpl. destruct (Nat.leb_spec ticks elapsed); [done|].
  apply IH; lia.
Qed.

Lemma wait_no_timeout_without_limit c elapsed fuel :
  c <> Breaks TimeoutExpired ->
  wait None c elapsed fuel <> Some (Raise TimeoutExpired).
Proof.
  revert elapsed. induction fuel as [|fuel IH]; intros elapsed Hc; [done|].
  simpl. destruct c as [ticks p| |e].
  - destruct (ticks <=? elapsed)%nat; [done | by apply IH].
  - by apply IH.
  - congruence.
Qed.

(** With a limit, a child that does not exit is given up after [t]
    seconds: the behaviour the source does not ask for. *)
Lemma wait_with_limit_gives_up (t : nat) fuel :
  (t < fuel)%nat ->
  wait (Some (Z.of_nat t)) Loops 0 fuel = Some (Raise TimeoutExpired).
Proof.
  intros Hlt.
  assert (H : forall k e, (e + k = t)%nat -> (k < fuel - e)%nat ->
              wait (Some (Z.of_nat t)) Loops e (fuel - e) = Some (Raise TimeoutExpired)).
  { induction k as [|k IH]; intros e He Hk.
    - destruct (fuel - e)%nat as [|f] eqn:Hf; [lia|]. simpl.
      destruct (Z.leb_spec (Z.of_nat t) (Z.of_nat e)); [done | lia].
    - destruct (fuel - e)%nat as [|f] eqn:Hf; [lia|]. simpl.
      destruct (Z.leb_spec (Z.of_nat t) (Z.of_nat e)); [done|].
      replace f with (fuel - S e)%nat by lia. apply IH; lia. }
  specialize (H t 0%nat). rewrite Nat.sub_0_r in H. apply H; lia.
Qed.

(** [_run_and_validate_json], case by case on what [subprocess.run] does. *)
Lemma run_and_validate_unfold {Plan DataFiles} (E : env Plan DataFiles)
    patience code timeout_sec w :
  _run_and_validate_json E patience code timeout_sec w =
  match wait None (spawn E (spawned w) code) 0 patience with
  | None => None
  | Some (Ret p) => Some (Ret (validate p), after_run E w)
  | Some (Raise TimeoutExpired) =>
      Some (Raise (UnboundLocalError (T "stdout")), after_run E w)
  | Some (Raise e) => Some (Raise e, after_run E w)
  end.
Proof.
  unfold _run_and_validate_json, bind, write_temp_script, try_finally,
    try_except, subprocess_run, remove_quietly, after_run, set_fs, ret, raise.
  simpl. rewrite lookup_insert_eq. simpl.
  destruct (wait None (spawn E (spawned w) code) 0 patience) as [[p|e]|];
    simpl; [ | destruct e; simpl | ]; by rewrite ?delete_insert_eq.
Qed.

(** C1 (the code does not do this).  The source starts the child with no
    [timeout] argument, so on a script that never exits
    [_run_and_validate_json] has not returned however long the caller
    waits: for every [timeout_sec] and every [patience] there is no
    result, timed-out or other. *)
Theorem run_blocks_on_endless_script {Plan DataFiles}
    (E : env Plan DataFiles) patience code timeout_sec w :
  spawn E (spawned w) code = Loops ->
  _run_and_validate_json E patience code timeout_sec w = None.
Proof.
  intros Hloop. rewrite run_and_validate_unfold, Hloop.
  by rewrite wait_forever_on_loop.
Qed.

Lemma run_blocks_on_endless_script_witness :
  _run_and_validate_json (scenario (Returned looping_script) Loops) 3600
    looping_script 1 empty_world = None.
Proof.
  apply (run_blocks_on_endless_script
           (scenario (Returned looping_script) Loops) 3600 looping_script 1
           empty_world).
  reflexivity.
Defined.

(** Were [subprocess.run] to raise TimeoutExpired, the handler would read
    [stdout] before it is assigned. *)
Lemma timeout_handler_reads_unbound_stdout :
  _run_and_validate_json
    (scenario (Returned looping_script) (Breaks TimeoutExpired)) 3600
    looping_script 1 empty_world
  = Some (Raise (UnboundLocalError (T "stdout")),
          after_run (scenario (Returned looping_script) (Breaks TimeoutExpired))
                    empty_world).
Proof. by rewrite run_and_validate_unfold. Qed.



(** What the validator says about a finished process whose streams,
    stripped, are [out] and [err]. *)
Lemma validate_nonzero p :
  returncode p <> 0%Z ->
  validate p =
  (false, strip (p_stdout p),
   Some (match strip (p_stderr p) with
         | [] => T "Script exited with non-zero status."
         | _ :: _ => strip (p_stderr p)
         end)).
Proof.
  intros Hrc. unfold validate, or_else.
  destruct (Z.eqb_spec (returncode p) 0); [done|]. simpl.
  by destruct (strip (p_stderr p)).
Qed.





(** The three rules, evaluated. *)
Example validate_nonzero_exit :
  validate (Proc 2 (T "partial" ++ nl) (T "  " ++ nl))
  = (false, T "partial", Some (T "Script exited with non-zero status.")).
Proof. vm_compute. reflexivity. Qed.

Example validate_trailing_text :
  validate (Proc 0 (T "42" ++ nl ++ T "extra text" ++ nl) (T "warning" ++ nl))
  = (false, T "42" ++ nl ++ T "extra text",
     Some (T "Invalid JSON output: Extra data: line 2 column 1 (char 3)" ++ nl
             ++ T "STDOUT:" ++ nl ++ T "42" ++ nl ++ T "extra text" ++ nl
             ++ T "STDERR:" ++ nl ++ T "warning")).
Proof. vm_compute. reflexivity. Qed.

Example validate_empty_stdout :
  validate (Proc 0 [] [])
  = (false, [],
     Some (T "Invalid JSON output: Expecting value: line 1 column 1 (char 0)"
             ++ nl ++ T "STDOUT:" ++ nl ++ nl ++ T "STDERR:" ++ nl)).
Proof. vm_compute. reflexivity. Qed.

End ExecutorFacts.

(** ** The provider chain and the repair loop *)

Module OrchestratorFacts.
Import Text Json PlanExecution Scenarios TextFacts ExecutorFacts.

Section Chain.
Context {Plan DataFiles : Type}.
Variable E : env Plan DataFiles.

(** The whole behaviour of the three try blocks. *)
Lemma generate_with_fallback_unfold system user content w :
  let c1 := chain_call E w system user content [] Claude in
  let c2 := chain_call E w system user content [c1] OpenAI in
  let c3 := chain_call E w system user content [c1; c2] Gemini in
  generate_with_fallback E system user content w =
  match c_reply c1 with
  | Returned (x :: code) =>
      Some (Ret (Generated (x :: code)), with_calls w [c1])
  | _ =>
      match c_reply c2 with
      | Returned (x :: code) =>
          Some (Ret (Generated (x :: code)), with_calls w [c1; c2])
      | _ =>
          match c_reply c3 with
          | Returned code =>
              Some (Ret (Generated code), with_calls w [c1; c2; c3])
          | Raised _ =>
              Some (Ret (GeminiFailed (code_of (c_reply c2))),
                    with_calls w [c1; c2; c3])
          end
      end
  end.
Proof.
  unfold generate_with_fallback, chain_call, with_calls, bind, call_backend,
    ret. simpl. rewrite app_nil_r.
  destruct (backend_reply E Claude (calls w) system user content)
    as [m1|[|x1 code1]] eqn:H1; simpl;
    try done;
    rewrite <- ?app_assoc; simpl;
    destruct (backend_reply E OpenAI (calls w ++ _) system user content)
      as [m2|[|x2 code2]] eqn:H2; simpl; try done;
    rewrite <- ?app_assoc; simpl;
    by destruct (backend_reply E Gemini (calls w ++ _) system user content).
Qed.

(** C3.  One generation step calls the backends in the order Claude,
    OpenAI, Gemini and stops at the first that returns usable code.  The
    calls [new] it adds to the log are a non-empty initial part of that
    order, each with the same prompts and content; every call but the
    last raised or returned no (or empty) code; the last is either a
    call that returned code, which is the result, or the call to Gemini
    having raised, which is the only way the step fails (and then all
    three calls were made and none gave usable code). *)
Theorem provider_chain_order system user content w :
  exists new r,
    generate_with_fallback E system user content w
    = Some (Ret r, with_calls w new)
    /\ new <> []
    /\ (exists rest, [Claude; OpenAI; Gemini] = map c_backend new ++ rest)
    /\ (forall i c, new !! i = Some c ->
          c = chain_call E w system user content (take i new) (c_backend c))
    /\ (forall i c, new !! i = Some c -> (S i < length new)%nat ->
          usable (c_reply c) = false)
    /\ (forall c, last new = Some c ->
          (usable (c_reply c) = false -> c_backend c = Gemini)
          /\ match c_reply c with
             | Returned code => r = Generated code
             | Raised _ =>
                 (exists v, r = GeminiFailed v) /\ length new = 3%nat
             end).
Proof.
  pose proof (generate_with_fallback_unfold system user content w) as H.
  cbv zeta in H. rewrite H. clear H.
  set (c1 := chain_call E w system user content [] Claude).
  set (c2 := chain_call E w system user content [c1] OpenAI).
  set (c3 := chain_call E w system user content [c1; c2] Gemini).
  assert (U1 : forall x code, c_reply c1 = Returned (x :: code) ->
                              usable (c_reply c1) = true)
    by (by intros x code ->).
  assert (U2 : forall x code, c_reply c2 = Returned (x :: code) ->
                              usable (c_reply c2) = true)
    by (by intros x code ->).
  destruct (c_reply c1) as [m1|[|x1 code1]] eqn:H1.
  1,2: destruct (c_reply c2) as [m2|[|x2 code2]] eqn:H2.
  1,2,4,5: destruct (c_reply c3) as [m3|code3] eqn:H3.
  all: match goal with
       | |- context [with_calls _ ?l] => exists l
       end; eexists; split; [reflexivity|].
  all: split; [done|].
  all: split; [by eexists|].
  all: split; [intros [|[|[|i]]] c Hc; simplify_eq/=; done|].
  all: split;
    [intros [|[|[|i]]] c Hc Hlen; simplify_eq/=; try lia;
     unfold usable; rewrite ?H1, ?H2; done|].
  all: intros c Hc; simplify_eq/=;
    rewrite ?H1, ?H2, ?H3; unfold usable; rewrite ?H1, ?H2, ?H3;
    simpl; split; try done; eauto.
Qed.

End Chain.

Section Repair.
Context {Plan DataFiles : Type}.
Variable E : env Plan DataFiles.

(** The text inside the tuple that [_build_repair_prompt] returns holds
    the base user prompt, the statement that the previous code failed,
    the previous code, the error and the plan. *)
Lemma repair_tuple_holds_evidence system plan questions files prev_code error :
  let base :=
    snd (if s3_present E plan questions
         then execute_s3 E plan questions files
         else execute_entire_plan_v2 E plan questions files) in
  let 'Tuple1 s :=
    snd (_build_repair_prompt E system plan questions files prev_code error) in
  embeds base s
  /\ embeds (T "Your previous code failed.") s
  /\ embeds (fmt_opt prev_code) s
  /\ embeds (fmt_opt error) s
  /\ embeds (str_plan E plan) s.
Proof.
  unfold _build_repair_prompt.
  destruct (if s3_present E plan questions then _ else _) as [sp base].
  cbn [snd]. repeat split; find_embedded.
Qed.

(** The user prompt of the repair request is [str] of that tuple, which
    has no newline in it. *)
Lemma repair_request_one_line system plan questions files prev_code error :
  ~ In (chr 10)
      (str_of_tuple1
         (snd (_build_repair_prompt E system plan questions files
                                    prev_code error))).
Proof.
  destruct (snd _) as [s]. apply str_tuple1_no_newline.
Qed.

(** C8 (the code does not do this).  [_build_repair_prompt] returns the
    user prompt as a one-element tuple (the expression ends in a comma),
    and the repair round passes [str] of it to the backends: the text is
    written as by [repr], newlines as backslash-n.  A previous code of
    more than one line is therefore not contained in the user prompt of
    the repair request. *)
Theorem repair_request_lacks_multiline_code
    system plan questions files code error :
  In (chr 10) code ->
  ~ embeds code
      (str_of_tuple1
         (snd (_build_repair_prompt E system plan questions files
                                    (Some code) error))).
Proof.
  intros Hnl Hemb.
  apply (repair_request_one_line system plan questions files (Some code) error).
  by apply (embeds_In _ code).
Qed.

End Repair.

Lemma repair_request_lacks_multiline_code_witness :
  ~ embeds two_line_script
      (str_of_tuple1
         (snd (_build_repair_prompt
                 (scenario (Returned two_line_script) failing_child)
                 (T "You write Python for data analysis.")
                 (T "load sales.csv; sum the column amount")
                 (T "What is the total amount?") tt
                 (Some two_line_script) (Some name_error)))).
Proof.
  apply (repair_request_lacks_multiline_code
           (scenario (Returned two_line_script) failing_child)).
  vm_compute. tauto.
Defined.

Section Loop.
Context {Plan DataFiles : Type}.
Variable E : env Plan DataFiles.
Variable patience : nat.

Open Scope eff_scope.

(** A run of a child that exits. *)
Lemma run_of_exiting_child code timeout_sec w ticks p :
  spawn E (spawned w) code = Exits ticks p ->
  (ticks < patience)%nat ->
  _run_and_validate_json E patience code timeout_sec w
  = Some (Ret (validate p), after_run E w).
Proof.
  intros Hs Hlt. rewrite run_and_validate_unfold, Hs.
  rewrite wait_until_exit by lia. done.
Qed.

(** Saving the code, running it and saving the report, when the child
    exits: the verdict is recorded and the calls are untouched. *)
Lemma attempt_of_exiting_child kind kind' code timeout_sec w ticks p :
  spawn E (spawned w) code = Exits ticks p ->
  (ticks < patience)%nat ->
  exists w3,
    calls w3 = calls w
    /\ runs w3 = runs w ++ [(code, validate p)]
    /\ forall B (k : verdict -> M B),
        (save_code E kind code ;;;
         v <- _run_and_validate_json E patience code timeout_sec ;;
         save_report E kind' code v ;;; k v) w
        = k (validate p) w3.
Proof.
  intros Hs Hlt.
  eexists (World _ (calls w) _ _ (runs w ++ [(code, validate p)])).
  split; [done|]. split; [done|]. intros B k.
  cbv [save_code bind write_file now_ms set_fs fs calls spawned
       clock_reads runs].
  erewrite run_of_exiting_child; [|exact Hs|exact Hlt].
  cbv [save_report after_run bind write_file now_ms set_fs fs calls spawned
       clock_reads runs].
  reflexivity.
Qed.

(** A generation step always returns, having added at most three calls
    and touched nothing else. *)
Lemma generation_returns system user content w :
  exists new r,
    generate_with_fallback E system user content w
    = Some (Ret r, with_calls w new)
    /\ (1 <= length new <= 3)%nat.
Proof.
  pose proof (generate_with_fallback_unfold E system user content w) as H.
  cbv zeta in H. rewrite H. clear H.
  repeat match goal with
         | |- context [match c_reply ?c with _ => _ end] =>
             destruct (c_reply c) as [?|[|? ?]]
         end;
    eexists _, _; (split; [reflexivity | simpl; lia]).
Qed.

Lemma generation_by_claude system user content w :
  claude_answers E ->
  exists c code,
    generate_with_fallback E system user content w
    = Some (Ret (Generated code), with_calls w [c]).
Proof.
  intros Hclaude.
  pose proof (generate_with_fallback_unfold E system user content w) as H.
  cbv zeta in H. rewrite H. clear H.
  specialize (Hclaude (calls w ++ []) system user content).
  unfold chain_call at 1. simpl c_reply at 1.
  destruct (backend_reply E Claude (calls w ++ []) system user content)
    as [m|[|x code]]; try discriminate Hclaude.
  by eexists _, _.
Qed.



(** When Claude always answers and every run fails, each round is one
    call and one run. *)
Lemma retry_loop_all_fail system plan questions files timeout :
  children_fail E patience ->
  claude_answers E ->
  forall rounds code error w,
    exists v w',
      retry_loop E patience rounds system plan questions files timeout
                 code error w = Some (Ret v, w')
      /\ length (runs w') = (length (runs w) + rounds)%nat
      /\ length (calls w') = (length (calls w) + rounds)%nat.
Proof.
  intros Hfail Hclaude. induction rounds as [|rounds IH]; intros code error w.
  - exists (of_opt error), w. split; [done|]. lia.
  - simpl.
    destruct (_build_repair_prompt E system plan questions files code error)
      as [sp up].
    destruct (generation_by_claude sp (str_of_tuple1 up) (Some questions) w
                Hclaude) as (c & code' & Hgen).
    unfold bind at 1. rewrite Hgen.
    destruct (Hfail (spawned (with_calls w [c])) code')
      as (ticks & p & Hs & Hlt & Hrc).
    destruct (attempt_of_exiting_child (T "retry") (T "retry_result")
                code' timeout _ ticks p Hs Hlt) as (w3 & Hcalls & Hruns & Hk).
    rewrite Hk, (validate_nonzero p Hrc).
    destruct (IH (Some code')
                (Some match strip (p_stderr p) with
                      | [] => T "Script exited with non-zero status."
                      | _ :: _ => strip (p_stderr p)
                      end) w3) as (v & w' & Hloop & Hr & Hc).
    exists v, w'. split; [exact Hloop|].
    rewrite Hr, Hc, Hruns, Hcalls. simpl. rewrite !length_app. simpl. lia.
Qed.


(** C9.  When the s3 marker occurs in the lower-cased questions or in
    the lower-cased dump of the plan, [execute_plan_v1] does not use the
    [max_retries] it was given but 8: the call behaves as with
    [max_retries = 8], and when Claude always answers and every run
    fails there are exactly eight repair rounds after the first attempt
    (nine calls, nine runs). *)
Theorem s3_sets_budget_to_eight plan questions files timeout max_retries :
  s3_present E plan questions = true ->
  (forall w,
      execute_plan_v1 E patience plan questions files timeout max_retries w
      = execute_plan_v1 E patience plan questions files timeout 8 w)
  /\ (children_fail E patience -> claude_answers E ->
      forall w, exists v w',
        execute_plan_v1 E patience plan questions files timeout max_retries w
        = Some (Ret v, w')
        /\ length (calls w') = (length (calls w) + 9)%nat
        /\ length (runs w') = (length (runs w) + 9)%nat).
Proof.
  intros Hs3. split.
  - intros w. unfold execute_plan_v1. by rewrite Hs3.
  - intros Hfail Hclaude w. unfold execute_plan_v1. rewrite Hs3.
    destruct (execute_s3 E plan questions files) as [sp up].
    destruct (generation_by_claude (sp ++ json_only) up None w Hclaude)
      as (c & code & Hgen).
    unfold bind at 1. rewrite Hgen.
    destruct (Hfail (spawned (with_calls w [c])) code)
      as (ticks & p & Hs & Hlt & Hrc).
    destruct (attempt_of_exiting_child (T "initial") (T "run")
                code timeout _ ticks p Hs Hlt) as (w3 & Hcalls & Hruns & Hk).
    rewrite Hk, (validate_nonzero p Hrc).
    destruct (retry_loop_all_fail (sp ++ json_only) plan questions files
                timeout Hfail Hclaude (Z.to_nat 8) (Some code)
                (Some match strip (p_stderr p) with
                      | [] => T "Script exited with non-zero status."
                      | _ :: _ => strip (p_stderr p)
                      end) w3) as (v & w' & Hloop & Hr & Hc).
    exists v, w'. split; [exact Hloop|].
    rewrite Hr, Hc, Hruns, Hcalls. simpl. rewrite !length_app. simpl. lia.
Qed.

End Loop.

Lemma failing_scenario_children_fail : children_fail failing_scenario 3600.
Proof.
  intros n code. eexists _, _. split; [reflexivity|]. split; [lia | done].
Qed.


Lemma failing_scenario_claude_answers : claude_answers failing_scenario.
Proof. by intros history system user content. Qed.


(** The run of the witness, evaluated: one call, one run, and the error
    of that run, stripped, is the answer. *)
Example zero_budget_without_s3 :
  (fun r => (fst <$> r, length ∘ calls ∘ snd <$> r, length ∘ runs ∘ snd <$> r))
    (execute_plan_v1 failing_scenario 3600 sales_plan local_question tt 300 0
                     empty_world)
  = (Some (Ret (VStr (T "NameError: name df is not defined"))),
     Some 1%nat, Some 1%nat).
Proof. vm_compute. reflexivity. Qed.


Lemma s3_sets_budget_to_eight_witness :
  exists v w',
    execute_plan_v1 failing_scenario 3600 sales_plan s3_question tt 300 0
                    empty_world = Some (Ret v, w')
    /\ length (calls w') = (length (calls empty_world) + 9)%nat
    /\ length (runs w') = (length (runs empty_world) + 9)%nat.
Proof.
  apply (proj2 (s3_sets_budget_to_eight failing_scenario 3600 sales_plan
                  s3_question tt 300 0 eq_refl)
               failing_scenario_children_fail
               failing_scenario_claude_answers empty_world).
Defined.

(** What the backends are sent in the first repair round of that run:
    the newline of the script arrives as a backslash and the letter n. *)
Example first_repair_request :
  (fun r =>
     (fun user => (contains (T "import json\nprint(df)") user,
                   contains (T "import json" ++ nl ++ T "print(df)") user,
                   contains nl user))
     <$> (c_user <$> (r ≫= fun x => calls (snd x) !! 1%nat)))
    (execute_plan_v1 failing_scenario 3600 sales_plan s3_question tt 300 0
                     empty_world)
  = Some (true, false, false).
Proof. vm_compute. reflexivity. Qed.

End OrchestratorFacts.

(** ** The caching Gemini adapter *)

Module GeminiFacts.
Import Text Extractor GeminiAdapter Scenarios.

Lemma load_cache_dict w : fst (_load_cache w) = cache_dict (cache w).
Proof.
  unfold _load_cache, _ensure_cache.
  destruct (cache w) eqn:H; cbn; rewrite ?H; done.
Qed.

Lemma load_cache_keeps_dict w :
  cache_dict (cache (snd (_load_cache w))) = cache_dict (cache w).
Proof.
  unfold _load_cache, _ensure_cache.
  destruct (cache w) eqn:H; cbn; rewrite ?H; cbn; rewrite ?H; done.
Qed.

(** Once the file holds a dict, loading it changes nothing. *)
Lemma load_cache_of_dict w m : cache w = Holds m -> _load_cache w = (m, w).
Proof.
  intros H. unfold _load_cache, _ensure_cache. rewrite H. cbn. by rewrite H.
Qed.

Section Adapter.
Variable E : genv.

Lemma attempt_once_keeps_cache model sp up content w :
  cache (snd (attempt_once E model sp up content w)) = cache w.
Proof.
  unfold attempt_once.
  destruct (generate_content E _ _) as [resp|e]; simpl.
  - by destruct (strip _).
  - by destruct (err_data e) as [[st msg]|].
Qed.

Lemma attempt_once_code_nonempty model sp up content w txt code w' :
  attempt_once E model sp up content w = (inl (txt, code), w') ->
  code <> [].
Proof.
  unfold attempt_once.
  destruct (generate_content E _ _) as [resp|e]; simpl.
  - destruct (strip (_extract_code _)) eqn:Hs; [done|].
    intros [= _ <- _] Hnil. by rewrite Hnil in Hs.
  - by destruct (err_data e) as [[st msg]|].
Qed.

(** Attempts that all failed leave the cache file as it was. *)
Lemma attempts_failed_keep_cache n :
  forall i ma model sp up key content prefer le w le' w',
    attempts E n i ma model sp up key content prefer le w = (Failed le', w') ->
    cache w' = cache w.
Proof.
  induction n as [|n IH]; intros i ma model sp up key content prefer le w le' w';
    simpl; [by intros [= _ <-]|].
  pose proof (attempt_once_keeps_cache model sp up content w) as Hc.
  destruct (attempt_once E model sp up content w) as [[[txt code]|[st msg]] w1];
    [done|].
  simpl in Hc. destruct (_ && _).
  - intros H. apply IH in H. congruence.
  - intros [= _ <-]. done.
Qed.

(** A successful attempt of a caching call leaves its code in the
    cache, under the key of the call. *)
Lemma attempts_done_cached n :
  forall i ma model sp up key content le w code w',
    attempts E n i ma model sp up key content true le w = (Done code, w') ->
    cache_dict (cache w') !! key = Some code /\ code <> []
    /\ exists m, cache w' = Holds m.
Proof.
  induction n as [|n IH]; intros i ma model sp up key content le w code w';
    simpl; [done|].
  destruct (attempt_once E model sp up content w)
    as [[[txt code1]|[st msg]] w1] eqn:Hatt.
  - destruct (_load_cache w1) as [c w2]. intros [= <- <-]. simpl.
    split; [apply lookup_insert_eq|].
    split; [by eapply attempt_once_code_nonempty | by eexists].
  - destruct (_ && _); [apply IH | done].
Qed.

Lemma models_failed_keep_cache models :
  forall left per sp up key content prefer le w le' w',
    models_loop E models left per sp up key content prefer le w
    = (Failed le', w') ->
    cache w' = cache w.
Proof.
  induction models as [|model models IH];
    intros left per sp up key content prefer le w le' w'; simpl;
    [by intros [= _ <-]|].
  destruct (_ <=? 0)%Z; [by intros [= _ <-]|].
  destruct (attempts E _ _ _ _ _ _ _ _ _ _ w) as [[code|le1] w1] eqn:Hatt;
    [done|].
  apply attempts_failed_keep_cache in Hatt.
  destruct (_ <=? 0)%Z; [by intros [= _ <-]|].
  intros H. apply IH in H. congruence.
Qed.

Lemma models_done_cached models :
  forall left per sp up key content le w code w',
    models_loop E models left per sp up key content true le w
    = (Done code, w') ->
    cache_dict (cache w') !! key = Some code /\ code <> []
    /\ exists m, cache w' = Holds m.
Proof.
  induction models as [|model models IH];
    intros left per sp up key content le w code w'; simpl; [done|].
  destruct (_ <=? 0)%Z; [done|].
  destruct (attempts E _ _ _ _ _ _ _ _ _ _ w) as [[code1|le1] w1] eqn:Hatt.
  - intros [= <- <-]. by eapply attempts_done_cached.
  - destruct (_ <=? 0)%Z; [done | apply IH].
Qed.

Lemma attempts_all_fail sp up content :
  attempts_fail E sp up content ->
  forall n i ma model key prefer le w,
    exists le' w',
      attempts E n i ma model sp up key content prefer le w = (Failed le', w').
Proof.
  intros Hfail. induction n as [|n IH]; intros i ma model key prefer le w;
    simpl; [by eexists _, _|].
  destruct (Hfail model w) as (st & msg & Hatt).
  destruct (attempt_once E model sp up content w) as [r w1].
  simpl in Hatt. subst r. destruct (_ && _); [apply IH | by eexists _, _].
Qed.

Lemma models_all_fail sp up content :
  attempts_fail E sp up content ->
  forall models left per key prefer le w,
    exists le' w',
      models_loop E models left per sp up key content prefer le w
      = (Failed le', w').
Proof.
  intros Hfail. induction models as [|model models IH];
    intros left per key prefer le w; simpl; [by eexists _, _|].
  destruct (_ <=? 0)%Z; [by eexists _, _|].
  destruct (attempts_all_fail sp up content Hfail
              (Z.to_nat (Z.min per left)) 1%Z (Z.min per left) model key
              prefer le w) as (le1 & w1 & ->).
  destruct (_ <=? 0)%Z; [by eexists _, _ | apply IH].
Qed.

(** After failed attempts the last resort decides. *)
Lemma uncached_when_attempts_fail sp up key content ta pa prefer w :
  attempts_fail E sp up content ->
  match cache_dict (cache w) !! key with
  | Some code =>
      fst (generate_uncached E sp up key content ta pa prefer w) = GRet code
  | None =>
      exists msg,
        fst (generate_uncached E sp up key content ta pa prefer w) = GRaise msg
  end.
Proof.
  intros Hfail. unfold generate_uncached.
  destruct (models_all_fail sp up content Hfail (MODEL_CHAIN E) ta pa key
              prefer None w) as (le & w1 & Hloop).
  rewrite Hloop. apply models_failed_keep_cache in Hloop.
  pose proof (load_cache_dict w1) as Hd.
  destruct (_load_cache w1) as [c w2]. simpl in Hd. subst c.
  rewrite Hloop. destruct (cache_dict (cache w) !! key); [done | by eexists].
Qed.

(** C10.  When every network attempt fails, the call ends with a look
    into the cache under the key of the two prompts: an entry there is
    returned, whatever [prefer_cached] is, and the RuntimeError is
    raised only when there is none. *)
Theorem last_resort_returns_cached sp up content ta pa prefer w :
  attempts_fail E sp up content ->
  match cache_dict (cache w) !! _prompt_key E sp up with
  | Some code =>
      fst (gemini_call_for_code E sp up content ta pa prefer w) = GRet code
  | None =>
      exists msg,
        fst (gemini_call_for_code E sp up content ta pa prefer w) = GRaise msg
  end.
Proof.
  intros Hfail. unfold gemini_call_for_code.
  set (key := _prompt_key E sp up).
  destruct prefer; [|by apply uncached_when_attempts_fail].
  pose proof (load_cache_dict w) as Hd.
  pose proof (load_cache_keeps_dict w) as Hk.
  destruct (_load_cache w) as [c w0]. simpl in Hd, Hk. subst c.
  pose proof (uncached_when_attempts_fail sp up key content ta pa true w0
                Hfail) as Hu.
  rewrite Hk in Hu.
  by destruct (cache_dict (cache w) !! key) as [[|x cached]|].
Qed.

(** C6.  Of two consecutive caching calls with the same two prompts,
    the first of which returned code, the second returns the same code
    and leaves the world as it found it: it makes no request and writes
    nothing, the code being in the cache under the key of the prompts.
    (The cache is assumed to hold no empty code, which the adapter never
    writes: see [calls_keep_cache_ok].) *)
Theorem second_call_served_from_cache
    sp up content content' ta pa ta' pa' w code w1 :
  cache_ok w ->
  gemini_call_for_code E sp up content ta pa true w = (GRet code, w1) ->
  gemini_call_for_code E sp up content' ta' pa' true w1 = (GRet code, w1)
  /\ cache_dict (cache w1) !! _prompt_key E sp up = Some code
  /\ net_calls (snd (gemini_call_for_code E sp up content' ta' pa' true w1))
     = net_calls w1.
Proof.
  intros Hok Hfirst.
  assert (Hcached : cache_dict (cache w1) !! _prompt_key E sp up = Some code
                    /\ code <> [] /\ exists m, cache w1 = Holds m).
  { revert Hfirst. unfold gemini_call_for_code.
    set (key := _prompt_key E sp up).
    pose proof (load_cache_dict w) as Hd.
    pose proof (load_cache_keeps_dict w) as Hk.
    destruct (_load_cache w) as [c w0] eqn:Hload. simpl in Hd, Hk. subst c.
    destruct (cache_dict (cache w) !! key) as [[|x cached]|] eqn:Hlook.
    - by destruct (Hok key).
    - intros [= <- <-]. rewrite Hk, Hlook. split; [done|]. split; [done|].
      destruct (cache w0) as [| |m] eqn:Hc; [ | |by eexists];
        simpl in Hk; rewrite <- Hk in Hlook;
        by rewrite lookup_empty in Hlook.
    - unfold generate_uncached.
      destruct (models_loop E _ _ _ _ _ _ _ _ _ w0) as [[code1|le] w2] eqn:Hloop.
      + intros [= <- <-]. by eapply models_done_cached.
      + apply models_failed_keep_cache in Hloop.
        pose proof (load_cache_dict w2) as Hd2.
        destruct (_load_cache w2) as [c2 w3]. simpl in Hd2. subst c2.
        rewrite Hloop, Hk, Hlook. done. }
  destruct Hcached as (Hlook & Hne & m & Hm).
  assert (Hsecond : gemini_call_for_code E sp up content' ta' pa' true w1
                    = (GRet code, w1)).
  { unfold gemini_call_for_code. rewrite (load_cache_of_dict w1 m Hm).
    rewrite Hm in Hlook. simpl in Hlook. rewrite Hlook.
    by destruct code. }
  rewrite Hsecond. done.
Qed.

(** The adapter never writes empty code into the cache. *)
Lemma cache_ok_same_dict w w' :
  cache_dict (cache w') = cache_dict (cache w) -> cache_ok w -> cache_ok w'.
Proof. unfold cache_ok. by intros ->. Qed.

Lemma attempts_keep_cache_ok n :
  forall i ma model sp up key content prefer le w,
    cache_ok w ->
    cache_ok (snd (attempts E n i ma model sp up key content prefer le w)).
Proof.
  induction n as [|n IH]; intros i ma model sp up key content prefer le w Hok;
    simpl; [done|].
  pose proof (attempt_once_keeps_cache model sp up content w) as Hc.
  destruct (attempt_once E model sp up content w)
    as [[[txt code]|[st msg]] w1] eqn:Hatt; simpl in Hc.
  - destruct prefer; simpl.
    + pose proof (load_cache_dict w1) as Hd.
      destruct (_load_cache w1) as [c w2]. simpl in *. subst c.
      intros k. simpl. destruct (decide (key = k)) as [<-|Hne].
      * rewrite lookup_insert_eq. intros [= Hnil].
        by eapply attempt_once_code_nonempty.
      * rewrite lookup_insert_ne by done. rewrite Hc. apply Hok.
    + intros k. simpl. rewrite Hc. apply Hok.
  - assert (Hok1 : cache_ok w1) by (intros k; rewrite Hc; apply Hok).
    destruct (_ && _); [by apply IH | done].
Qed.

Lemma models_keep_cache_ok models :
  forall left per sp up key content prefer le w,
    cache_ok w ->
    cache_ok (snd (models_loop E models left per sp up key content prefer le w)).
Proof.
  induction models as [|model models IH];
    intros left per sp up key content prefer le w Hok; simpl; [done|].
  destruct (_ <=? 0)%Z; [done|].
  pose proof (attempts_keep_cache_ok (Z.to_nat (Z.min per left)) 1%Z
                (Z.min per left) model sp up key content prefer le w Hok) as H1.
  destruct (attempts E _ _ _ _ _ _ _ _ _ _ w) as [[code|le1] w1]; [done|].
  destruct (_ <=? 0)%Z; [done | by apply IH].
Qed.

Lemma calls_keep_cache_ok sp up content ta pa prefer w :
  cache_ok w ->
  cache_ok (snd (gemini_call_for_code E sp up content ta pa prefer w)).
Proof.
  intros Hok.
  assert (Hun : forall key w0, cache_ok w0 ->
            cache_ok (snd (generate_uncached E sp up key content ta pa prefer w0))).
  { intros key w0 Hok0. unfold generate_uncached.
    pose proof (models_keep_cache_ok (MODEL_CHAIN E) ta pa sp up key content
                  prefer None w0 Hok0) as H1.
    destruct (models_loop E _ _ _ _ _ _ _ _ _ w0) as [[code|le] w1]; [done|].
    pose proof (load_cache_keeps_dict w1) as Hk.
    destruct (_load_cache w1) as [c w2]. simpl in *.
    assert (cache_ok w2) by by apply (cache_ok_same_dict w1).
    by destruct (c !! key). }
  unfold gemini_call_for_code. destruct prefer; [|by apply Hun].
  pose proof (load_cache_keeps_dict w) as Hk.
  destruct (_load_cache w) as [c w0]. simpl in Hk.
  assert (cache_ok w0) by by apply (cache_ok_same_dict w).
  destruct (c !! _) as [[|x cached]|]; try done; by apply Hun.
Qed.

End Adapter.

Lemma fresh_cache_ok : cache_ok fresh_gworld.
Proof. intros key. simpl. by rewrite lookup_empty. Qed.

Lemma second_call_served_from_cache_witness :
  gemini_call_for_code (gemini_scenario fenced_answer) sys_prompt user_prompt
    None 6 3 true
    (snd (gemini_call_for_code (gemini_scenario fenced_answer) sys_prompt
            user_prompt None 6 3 true fresh_gworld))
  = (GRet (T "print(1)"),
     snd (gemini_call_for_code (gemini_scenario fenced_answer) sys_prompt
            user_prompt None 6 3 true fresh_gworld))
  /\ cache_dict
       (cache (snd (gemini_call_for_code (gemini_scenario fenced_answer)
                      sys_prompt user_prompt None 6 3 true fresh_gworld)))
       !! _prompt_key (gemini_scenario fenced_answer) sys_prompt user_prompt
     = Some (T "print(1)")
  /\ net_calls
       (snd (gemini_call_for_code (gemini_scenario fenced_answer) sys_prompt
               user_prompt None 6 3 true
               (snd (gemini_call_for_code (gemini_scenario fenced_answer)
                       sys_prompt user_prompt None 6 3 true fresh_gworld))))
     = net_calls
         (snd (gemini_call_for_code (gemini_scenario fenced_answer) sys_prompt
                 user_prompt None 6 3 true fresh_gworld)).
Proof.
  apply (second_call_served_from_cache (gemini_scenario fenced_answer)
           sys_prompt user_prompt None None 6 3 6 3 fresh_gworld).
  - exact fresh_cache_ok.
  - vm_compute. reflexivity.
Defined.

(** The two calls of the witness, evaluated: one request in all. *)
Example two_calls_one_request :
  (fun r1 =>
     (fst r1, length (net_calls (snd r1)),
      (fun r2 => (fst r2, length (net_calls (snd r2))))
        (gemini_call_for_code (gemini_scenario fenced_answer) sys_prompt
           user_prompt None 6 3 true (snd r1))))
    (gemini_call_for_code (gemini_scenario fenced_answer) sys_prompt
       user_prompt None 6 3 true fresh_gworld)
  = (GRet (T "print(1)"), 1%nat, (GRet (T "print(1)"), 1%nat)).
Proof. vm_compute. reflexivity. Qed.

Lemma server_error_attempts_fail :
  attempts_fail (gemini_scenario server_error) sys_prompt user_prompt None.
Proof. intros model w. by eexists _, _. Qed.

Lemma last_resort_returns_cached_witness :
  fst (gemini_call_for_code (gemini_scenario server_error) sys_prompt
         user_prompt None 6 3 false primed_gworld)
  = GRet (T "print(1)").
Proof.
  exact (last_resort_returns_cached (gemini_scenario server_error) sys_prompt
           user_prompt None 6 3 false primed_gworld server_error_attempts_fail).
Defined.

(** The failing call of the witness, evaluated: six requests (three per
    model), then the cached code; on an empty cache, the RuntimeError with
    the last diagnostic. *)
Example six_requests_then_cache :
  (fun r => (fst r, length (net_calls (snd r))))
    (gemini_call_for_code (gemini_scenario server_error) sys_prompt
       user_prompt None 6 3 false primed_gworld)
  = (GRet (T "print(1)"), 6%nat)
  /\ fst (gemini_call_for_code (gemini_scenario server_error) sys_prompt
            user_prompt None 6 3 false fresh_gworld)
     = GRaise (T "Gemini API call failed: (model=gemini-2.5-flash) attempt 3/3: 503 The model is overloaded.").
Proof. split; vm_compute; reflexivity. Qed.

End GeminiFacts.

(** ** More on plan_execution.py: verdicts, cost, faults *)

Module PipelineFacts.
Import Text Json PlanExecution PipelineTerms Scenarios TextFacts ExecutorFacts
  OrchestratorFacts.


Section Cost.
Context {Plan DataFiles : Type}.
Variable E : env Plan DataFiles.
Variable patience : nat.

Open Scope eff_scope.

(** Saving the code, running it and saving the report, in the three
    cases of what [subprocess.run] does. *)
Lemma attempt_cases kind kind' code timeout_sec w :
  match wait None (spawn E (spawned w) code) 0 patience with
  | None =>
      forall B (k : verdict -> M B),
        (save_code E kind code ;;;
         v <- _run_and_validate_json E patience code timeout_sec ;;
         save_report E kind' code v ;;; k v) w = None
  | Some (Ret p) =>
      exists w3,
        calls w3 = calls w /\ spawned w3 = S (spawned w)
        /\ runs w3 = runs w ++ [(code, validate p)]
        /\ forall B (k : verdict -> M B),
            (save_code E kind code ;;;
             v <- _run_and_validate_json E patience code timeout_sec ;;
             save_report E kind' code v ;;; k v) w = k (validate p) w3
  | Some (Raise e) =>
      exists w2,
        calls w2 = calls w /\ spawned w2 = S (spawned w)
        /\ runs w2 = runs w
        /\ forall B (k : verdict -> M B),
            (save_code E kind code ;;;
             v <- _run_and_validate_json E patience code timeout_sec ;;
             save_report E kind' code v ;;; k v) w
            = Some (Raise (as_raised e), w2)
  end.
Proof.
  cbv [save_code bind write_file now_ms set_fs fs calls spawned clock_reads
       runs].
  rewrite run_and_validate_unfold.
  cbv [after_run fs calls spawned clock_reads runs].
  destruct (wait None (spawn E (let (_, _, spawned0, _, _) := w in spawned0)
                         code) 0 patience) as [[p|e]|] eqn:Hw.
  - eexists (World _ _ _ _ _).
    cbv [save_report bind write_file now_ms set_fs fs calls spawned
         clock_reads runs].
    repeat split.
  - eexists (World _ _ _ _ _). destruct e; repeat split.
  - done.
Qed.

Ltac cost_arith :=
  simpl in *; rewrite ?length_app in *; simpl in *; lia.

(** Each repair round costs at most three backend calls and one child. *)
Lemma retry_loop_cost system plan questions files timeout :
  forall rounds code error w r w',
    retry_loop E patience rounds system plan questions files timeout
               code error w = Some (r, w') ->
    (length (calls w') <= length (calls w) + 3 * rounds)%nat
    /\ (spawned w' <= spawned w + rounds)%nat
    /\ (length (runs w') <= length (runs w) + rounds)%nat.
Proof.
  induction rounds as [|rounds IH]; intros code error w r w'.
  - intros [= _ <-]. lia.
  - simpl.
    destruct (_build_repair_prompt E system plan questions files code error)
      as [sp up].
    destruct (generation_returns E sp (str_of_tuple1 up) (Some questions) w)
      as (new & r0 & Hgen & Hnew).
    unfold bind at 1. rewrite Hgen. destruct r0 as [code'|code'].
    + pose proof (attempt_cases (T "retry") (T "retry_result") code' timeout
                    (with_calls w new)) as Hatt.
      destruct (wait None _ 0 patience) as [[p|e]|].
      * destruct Hatt as (w3 & Hc & Hs & Hr & Hk). rewrite Hk.
        destruct (validate p) as [[[|] out] err].
        -- intros [= _ <-]. rewrite Hc, Hs, Hr. cost_arith.
        -- intros Hloop. apply IH in Hloop.
           rewrite Hc, Hs, Hr in Hloop. cost_arith.
      * destruct Hatt as (w2 & Hc & Hs & Hr & Hk). rewrite Hk.
        intros [= _ <-]. rewrite Hc, Hs, Hr. cost_arith.
      * by rewrite Hatt.
    + intros Hloop. apply IH in Hloop.
      cost_arith.
Qed.

(** X2.  A call of [execute_plan_v1] that returns (a value or an
    exception) has made at most three backend calls for the first
    generation and three for each repair round, and has spawned at most one
    child for the first attempt and one for each repair round; the number
    of rounds is at most [max_retries], or 8 when the s3 marker is
    present. *)
Theorem run_cost_bounded plan questions files timeout max_retries w r w' :
  execute_plan_v1 E patience plan questions files timeout max_retries w
  = Some (r, w') ->
  (length (calls w')
   <= length (calls w) + 3 * S (repair_budget E plan questions max_retries))%nat
  /\ (spawned w'
      <= spawned w + S (repair_budget E plan questions max_retries))%nat
  /\ (length (runs w')
      <= length (runs w) + S (repair_budget E plan questions max_retries))%nat.
Proof.
  unfold execute_plan_v1, repair_budget.
  set (choice := if s3_present E plan questions then _ else _).
  assert (Hrounds : Z.to_nat choice.2
                    = if s3_present E plan questions then 8%nat
                      else Z.to_nat max_retries)
    by (subst choice; by destruct (s3_present E plan questions)).
  rewrite <- Hrounds. destruct choice as [[sp up] rounds]. simpl snd.
  clear Hrounds.
  destruct (generation_returns E (sp ++ json_only) up None w)
    as (new & r0 & Hgen & Hnew).
  unfold bind at 1. rewrite Hgen. destruct r0 as [code|code'].
  - pose proof (attempt_cases (T "initial") (T "run") code timeout
                  (with_calls w new)) as Hatt.
    destruct (wait None _ 0 patience) as [[p|e]|].
    + destruct Hatt as (w3 & Hc & Hs & Hr & Hk). rewrite Hk.
      destruct (validate p) as [[[|] out] err].
      * intros [= _ <-]. rewrite Hc, Hs, Hr. cost_arith.
      * intros Hloop. apply retry_loop_cost in Hloop.
        rewrite Hc, Hs, Hr in Hloop. cost_arith.
    + destruct Hatt as (w2 & Hc & Hs & Hr & Hk). rewrite Hk.
      intros [= _ <-]. rewrite Hc, Hs, Hr. cost_arith.
    + by rewrite Hatt.
  - intros [= _ <-]. cost_arith.
Qed.

(** [execute_plan_v1] up to the end of its first attempt. *)
Lemma first_attempt_cases plan questions files timeout max_retries w :
  exists new r0 system rounds,
    (1 <= length new <= 3)%nat
    /\ match r0 with
       | GeminiFailed _ =>
           execute_plan_v1 E patience plan questions files timeout max_retries w
           = Some (Ret all_failed, with_calls w new)
       | Generated code =>
           match wait None (spawn E (spawned w) code) 0 patience with
           | None =>
               execute_plan_v1 E patience plan questions files timeout
                               max_retries w = None
           | Some (Raise e) =>
               exists w2,
                 calls w2 = calls w ++ new /\ runs w2 = runs w
                 /\ execute_plan_v1 E patience plan questions files timeout
                                    max_retries w
                    = Some (Raise (as_raised e), w2)
           | Some (Ret p) =>
               exists w3,
                 calls w3 = calls w ++ new
                 /\ runs w3 = runs w ++ [(code, validate p)]
                 /\ execute_plan_v1 E patience plan questions files timeout
                                    max_retries w
                    = (let '(ok, output, error) := validate p in
                       if ok then ret (VStr output)
                       else retry_loop E patience rounds system plan questions
                                       files timeout (Some code) error) w3
           end
       end.
Proof.
  destruct (if s3_present E plan questions
            then (execute_s3 E plan questions files, 8%Z)
            else (execute_entire_plan_v2 E plan questions files, max_retries))
    as [[sp up] rounds] eqn:Hchoice.
  destruct (generation_returns E (sp ++ json_only) up None w)
    as (new & r0 & Hgen & Hnew).
  exists new, r0, (sp ++ json_only), (Z.to_nat rounds). split; [done|].
  assert (Hrun :
    execute_plan_v1 E patience plan questions files timeout max_retries w
    = match r0 with
      | Generated code =>
          (save_code E (T "initial") code ;;;
           v <- _run_and_validate_json E patience code timeout ;;
           save_report E (T "run") code v ;;;
           let '(ok, output, error) := v in
           if ok then ret (VStr output)
           else retry_loop E patience (Z.to_nat rounds) (sp ++ json_only) plan
                           questions files timeout (Some code) error)
            (with_calls w new)
      | GeminiFailed _ => Some (Ret all_failed, with_calls w new)
      end).
  { unfold execute_plan_v1. rewrite Hchoice. unfold bind at 1. rewrite Hgen.
    by destruct r0. }
  rewrite Hrun. clear Hrun. destruct r0 as [code|code']; [|done].
  pose proof (attempt_cases (T "initial") (T "run") code timeout
                (with_calls w new)) as Hatt.
  simpl spawned in Hatt.
  destruct (wait None (spawn E (spawned w) code) 0 patience) as [[p|e]|].
  - destruct Hatt as (w3 & Hc & _ & Hr & Hk). exists w3. rewrite Hk.
    by destruct (validate p) as [[[|] out] err].
  - destruct Hatt as (w2 & Hc & _ & Hr & Hk). exists w2. by rewrite Hk.
  - by rewrite Hatt.
Qed.

(** X3.  [execute_plan_v1] has no handler around the run of the script:
    when [subprocess.run] raises in the first run, the call ends there.
    Either the first generation step had already failed (the dict is
    returned), or the exception leaves [execute_plan_v1] (an
    UnboundLocalError in place of a TimeoutExpired); no repair round is
    made and no run is recorded. *)
Theorem fault_of_first_run_is_raised
    plan questions files timeout max_retries w e :
  first_child E w (Breaks e) ->
  (0 < patience)%nat ->
  exists w',
    (execute_plan_v1 E patience plan questions files timeout max_retries w
     = Some (Ret all_failed, w')
     \/ execute_plan_v1 E patience plan questions files timeout max_retries w
        = Some (Raise (as_raised e), w'))
    /\ runs w' = runs w
    /\ (length (calls w') <= length (calls w) + 3)%nat.
Proof.
  intros Hchild Hpat.
  destruct (first_attempt_cases plan questions files timeout max_retries w)
    as (new & r0 & system & rounds & Hnew & Hrun).
  destruct r0 as [code|code'].
  - rewrite (Hchild code) in Hrun.
    destruct patience as [|n]; [lia|]. simpl in Hrun.
    destruct Hrun as (w2 & Hc & Hr & Hrun).
    exists w2. split; [by right|]. split; [done|]. rewrite Hc. cost_arith.
  - exists (with_calls w new). split; [by left|]. split; [done | cost_arith].
Qed.

(** X4.  When the script of the first run never exits, [execute_plan_v1]
    does not return however long the caller waits, unless the first
    generation step had already failed. *)
Theorem endless_first_run_blocks_the_call
    plan questions files timeout max_retries w :
  first_child E w Loops ->
  execute_plan_v1 E patience plan questions files timeout max_retries w = None
  \/ exists w',
       execute_plan_v1 E patience plan questions files timeout max_retries w
       = Some (Ret all_failed, w').
Proof.
  intros Hchild.
  destruct (first_attempt_cases plan questions files timeout max_retries w)
    as (new & r0 & system & rounds & Hnew & Hrun).
  destruct r0 as [code|code'].
  - rewrite (Hchild code), wait_forever_on_loop in Hrun. by left.
  - right. by eexists.
Qed.



Lemma validate_verdict p :
  match validate p with
  | (true, output, _) => Json.json_loads output = inr tt
  | (false, _, error) => exists e, error = Some e /\ e <> []
  end.
Proof.
  unfold validate. destruct (negb _).
  - eexists. split; [done|]. unfold or_else. by destruct (strip (p_stderr p)).
  - destruct (json_loads (strip (p_stdout p))) as [je|[]] eqn:Hj; [|done].
    by eexists.
Qed.

Lemma retry_loop_backed system plan questions files timeout :
  forall rounds code error w v w' c0 o0 e,
    last (runs w) = Some (c0, (false, o0, error)) ->
    error = Some e -> e <> [] ->
    retry_loop E patience rounds system plan questions files timeout
               code error w = Some (Ret v, w') ->
    backed_by_last_run w' v /\ (length (runs w) <= length (runs w'))%nat.
Proof.
  induction rounds as [|rounds IH]; intros code error w v w' c0 o0 e Hlast He Hne.
  - intros [= <- <-]. split; [|done]. exists c0, false, o0, error.
    split; [done|]. exists e. by subst error.
  - simpl.
    destruct (_build_repair_prompt E system plan questions files code error)
      as [sp up].
    destruct (generation_returns E sp (str_of_tuple1 up) (Some questions) w)
      as (new & r0 & Hgen & Hnew).
    unfold bind at 1. rewrite Hgen. destruct r0 as [code'|code'].
    + pose proof (attempt_cases (T "retry") (T "retry_result") code' timeout
                    (with_calls w new)) as Hatt.
      destruct (wait None _ 0 patience) as [[p|ex]|].
      * destruct Hatt as (w3 & Hc & Hs & Hr & Hk). rewrite Hk.
        pose proof (validate_verdict p) as Hv.
        assert (Hlast3 : last (runs w3) = Some (code', validate p))
          by (rewrite Hr; apply last_snoc).
        assert (Hlen : (length (runs w) < length (runs w3))%nat)
          by (rewrite Hr; cost_arith).
        destruct (validate p) as [[[|] out] err].
        -- intros [= <- <-]. split; [|lia]. by exists code', true, out, err.
        -- destruct Hv as (e' & He' & Hne'). intros Hloop.
           apply (IH _ _ _ _ _ code' out e' Hlast3 He' Hne') in Hloop.
           split; [apply Hloop | lia].
      * destruct Hatt as (w2 & Hc & Hs & Hr & Hk). by rewrite Hk.
      * by rewrite Hatt.
    + intros Hloop.
      by apply (IH _ _ (with_calls w new) _ _ c0 o0 e Hlast He Hne) in Hloop.
Qed.

(** X15.  An answer of [execute_plan_v1] is always backed by a run.  When
    the call returns a value, that value is either the dict that reports
    the failure of all three backends before the first run (and no run
    was made), or a string backed by the last run made: its stripped
    stdout, which is one JSON value, when that run passed, else its error
    text, which is not empty.  None and the empty string are never
    returned. *)
Theorem returned_answer_is_backed_by_last_run
    plan questions files timeout max_retries w v w' :
  execute_plan_v1 E patience plan questions files timeout max_retries w
  = Some (Ret v, w') ->
  (v = all_failed /\ runs w' = runs w)
  \/ (backed_by_last_run w' v /\ (length (runs w) < length (runs w'))%nat
      /\ exists s, v = VStr s /\ s <> []).
Proof.
  intros Hcall.
  assert (Hstr : forall wx, backed_by_last_run wx v ->
                            exists s, v = VStr s /\ s <> []).
  { intros wx (code & ok & out & err & _ & Hv). destruct ok.
    - destruct Hv as [-> Hjson]. exists out. split; [done|].
      intros ->. by vm_compute in Hjson.
    - destruct Hv as (e & _ & Hne & ->). by exists e. }
  destruct (first_attempt_cases plan questions files timeout max_retries w)
    as (new & r0 & system & rounds & Hnew & Hrun).
  destruct r0 as [code|code'].
  - destruct (wait None _ 0 patience) as [[p|ex]|].
    + destruct Hrun as (w3 & Hc & Hr & Hrun). rewrite Hrun in Hcall.
      pose proof (validate_verdict p) as Hv.
      assert (Hlast3 : last (runs w3) = Some (code, validate p))
        by (rewrite Hr; apply last_snoc).
      assert (Hlen : (length (runs w) < length (runs w3))%nat)
        by (rewrite Hr; cost_arith).
      destruct (validate p) as [[[|] out] err].
      * injection Hcall as <- <-. right.
        assert (Hb : backed_by_last_run w3 (VStr out))
          by by exists code, true, out, err.
        split; [done|]. split; [done | by apply (Hstr w3)].
      * destruct Hv as (e' & He' & Hne').
        apply (retry_loop_backed _ _ _ _ _ _ _ _ _ _ _ code out e' Hlast3 He'
                 Hne') in Hcall as [Hb Hle].
        right. split; [done|]. split; [lia | by apply (Hstr w')].
    + destruct Hrun as (w2 & _ & _ & Hrun). by rewrite Hrun in Hcall.
    + by rewrite Hrun in Hcall.
  - rewrite Hrun in Hcall. injection Hcall as <- <-. by left.
Qed.

End Cost.

Lemma run_cost_bounded_witness :
  exists r w',
    execute_plan_v1 failing_scenario 3600 sales_plan local_question tt 300 2
                    empty_world = Some (r, w')
    /\ (length (calls w')
        <= length (calls empty_world)
           + 3 * S (repair_budget failing_scenario sales_plan local_question 2))%nat
    /\ (spawned w'
        <= spawned empty_world
           + S (repair_budget failing_scenario sales_plan local_question 2))%nat
    /\ (length (runs w')
        <= length (runs empty_world)
           + S (repair_budget failing_scenario sales_plan local_question 2))%nat.
Proof.
  eexists _, _. split; [vm_compute; reflexivity|].
  eapply (run_cost_bounded failing_scenario 3600 sales_plan local_question tt
            300 2 empty_world).
  vm_compute. reflexivity.
Defined.

Lemma fault_of_first_run_is_raised_witness :
  exists w',
    (execute_plan_v1
       (scenario (Returned two_line_script)
                 (Breaks (OtherError (T "OSError") (T "Cannot allocate memory"))))
       3600 sales_plan local_question tt 300 3 empty_world
     = Some (Ret all_failed, w')
     \/ execute_plan_v1
          (scenario (Returned two_line_script)
                    (Breaks (OtherError (T "OSError") (T "Cannot allocate memory"))))
          3600 sales_plan local_question tt 300 3 empty_world
        = Some (Raise (as_raised
                         (OtherError (T "OSError") (T "Cannot allocate memory"))),
                w'))
    /\ runs w' = runs empty_world
    /\ (length (calls w') <= length (calls empty_world) + 3)%nat.
Proof.
  apply (fault_of_first_run_is_raised
           (scenario (Returned two_line_script)
                     (Breaks (OtherError (T "OSError") (T "Cannot allocate memory"))))
           3600 sales_plan local_question tt 300 3 empty_world).
  - intros code. reflexivity.
  - lia.
Defined.

Lemma endless_first_run_blocks_the_call_witness :
  execute_plan_v1 (scenario (Returned looping_script) Loops) 3600 sales_plan
                  local_question tt 1 3 empty_world = None
  \/ exists w',
       execute_plan_v1 (scenario (Returned looping_script) Loops) 3600
                       sales_plan local_question tt 1 3 empty_world
       = Some (Ret all_failed, w').
Proof.
  apply (endless_first_run_blocks_the_call
           (scenario (Returned looping_script) Loops) 3600 sales_plan
           local_question tt 1 3 empty_world).
  intros code. reflexivity.
Defined.



Lemma returned_answer_is_backed_by_last_run_witness :
  exists v w',
    execute_plan_v1 failing_scenario 3600 sales_plan local_question tt 300 2
                    empty_world = Some (Ret v, w')
    /\ ((v = all_failed /\ runs w' = runs empty_world)
        \/ (backed_by_last_run w' v
            /\ (length (runs empty_world) < length (runs w'))%nat
            /\ exists s, v = VStr s /\ s <> [])).
Proof.
  eexists _, _. split; [vm_compute; reflexivity|].
  eapply (returned_answer_is_backed_by_last_run failing_scenario 3600
            sales_plan local_question tt 300 2 empty_world).
  vm_compute. reflexivity.
Defined.

End PipelineFacts.

(** ** More on new_gemini_llm.py: requests made, cache kept *)

Module GeminiMoreFacts.
Import Text Extractor GeminiAdapter GeminiTerms Scenarios GeminiFacts.

Lemma load_cache_same_calls w : net_calls (snd (_load_cache w)) = net_calls w.
Proof.
  unfold _load_cache, _ensure_cache.
  destruct (cache w) eqn:H; cbn; rewrite ?H; done.
Qed.

Section Adapter.
Variable E : genv.

(** One attempt is one request. *)
Lemma attempt_once_one_request model sp up content w :
  length (net_calls (snd (attempt_once E model sp up content w)))
  = S (length (net_calls w)).
Proof.
  unfold attempt_once.
  destruct (generate_content E _ _) as [resp|e]; simpl.
  - destruct (strip _); simpl; rewrite length_app; simpl; lia.
  - destruct (err_data e) as [[st msg]|]; simpl; rewrite length_app;
      simpl; lia.
Qed.

Lemma attempt_once_code_not_blank model sp up content w txt code w' :
  attempt_once E model sp up content w = (inl (txt, code), w') ->
  strip code <> [].
Proof.
  unfold attempt_once.
  destruct (generate_content E _ _) as [resp|e]; simpl.
  - destruct (strip (_extract_code _)) eqn:Hs; [done|].
    intros [= _ <- _]. by rewrite Hs.
  - by destruct (err_data e) as [[st msg]|].
Qed.

(** The attempts on one model make at most as many requests as there are
    rounds; when they yield code, it is not blank and a request was made. *)
Lemma attempts_requests n :
  forall i ma model sp up key content prefer le w,
    (length (net_calls w)
     <= length (net_calls (snd (attempts E n i ma model sp up key content
                                          prefer le w)))
     <= length (net_calls w) + n)%nat
    /\ forall code,
         fst (attempts E n i ma model sp up key content prefer le w) = Done code ->
         strip code <> []
         /\ (length (net_calls w)
             < length (net_calls (snd (attempts E n i ma model sp up key
                                                content prefer le w))))%nat.
Proof.
  induction n as [|n IH]; intros i ma model sp up key content prefer le w;
    cbn [attempts]; [cbn [fst snd]; split; [lia | done]|].
  pose proof (attempt_once_one_request model sp up content w) as Hone.
  destruct (attempt_once E model sp up content w)
    as [[[txt code1]|[st msg]] w1] eqn:Hatt; cbn [fst snd] in Hone.
  - assert (Hcalls : net_calls
                       (if prefer
                        then let '(c, w2) := _load_cache w1 in
                             _save_cache (<[key:=code1]> c) w2
                        else w1) = net_calls w1).
    { destruct prefer; [|done].
      pose proof (load_cache_same_calls w1) as Hl.
      by destruct (_load_cache w1) as [c w2]. }
    cbn [fst snd net_calls]. rewrite Hcalls, Hone. split; [lia|].
    intros code [= <-]. split; [|lia].
    by eapply attempt_once_code_not_blank.
  - destruct (_ && _).
    + match goal with
      | |- context [attempts E n ?i' ma model sp up key content prefer ?le' w1] =>
          destruct (IH i' ma model sp up key content prefer le' w1) as [Hb Hd]
      end.
      rewrite Hone in Hb. split; [lia|].
      intros code Hc. destruct (Hd code Hc) as [Hs Hl].
      split; [done|]. rewrite Hone in Hl. lia.
    + cbn [fst snd]. rewrite Hone. split; [lia | done].
Qed.

(** The loop over the models stays within the total budget and within the
    budget per model. *)
Lemma models_requests models :
  forall left per sp up key content prefer le w,
    (length (net_calls w)
     <= length (net_calls (snd (models_loop E models left per sp up key
                                            content prefer le w)))
     <= length (net_calls w)
        + Nat.min (Z.to_nat left) (Z.to_nat per * length models))%nat
    /\ forall code,
         fst (models_loop E models left per sp up key content prefer le w)
         = Done code ->
         strip code <> []
         /\ (length (net_calls w)
             < length (net_calls (snd (models_loop E models left per sp up key
                                                   content prefer le w))))%nat.
Proof.
  induction models as [|model models IH];
    intros left per sp up key content prefer le w; simpl;
    [split; [lia | done]|].
  destruct (Z.leb_spec (Z.min per left) 0) as [Hle|Hgt];
    [simpl; split; [lia | done]|].
  pose proof (attempts_requests (Z.to_nat (Z.min per left)) 1%Z
                (Z.min per left) model sp up key content prefer le w)
    as [Hb Hd].
  destruct (attempts E _ _ _ _ _ _ _ _ _ _ w) as [[code1|le1] w1]; simpl in *.
  - split; [lia|]. intros code [= <-]. exact (Hd code1 eq_refl).
  - destruct (Z.leb_spec (left - Z.min per left) 0) as [Hle|Hgt'];
      [simpl; split; [lia | done]|].
    specialize (IH (left - Z.min per left)%Z per sp up key content prefer le1 w1).
    destruct IH as [Hb' Hd']. split; [lia|].
    intros code Hc. destruct (Hd' code Hc) as [Hs Hl]. split; [done | lia].
Qed.





(** The attempts write the cache only under the key of the call, and
    only when caching is on. *)
Lemma attempts_cache_frame n :
  forall i ma model sp up key content prefer le w,
    (forall k, k <> key ->
        cache_dict (cache (snd (attempts E n i ma model sp up key content
                                         prefer le w))) !! k
        = cache_dict (cache w) !! k)
    /\ (prefer = false ->
        cache (snd (attempts E n i ma model sp up key content prefer le w))
        = cache w).
Proof.
  induction n as [|n IH]; intros i ma model sp up key content prefer le w;
    cbn [attempts]; [done|].
  pose proof (attempt_once_keeps_cache E model sp up content w) as Hc.
  destruct (attempt_once E model sp up content w)
    as [[[txt code]|[st msg]] w1]; cbn [fst snd] in Hc.
  - destruct prefer; cbn [fst snd cache].
    + pose proof (load_cache_dict w1) as Hd.
      destruct (_load_cache w1) as [c w2]. cbn [fst snd] in Hd. subst c.
      split; [|done]. intros k Hk. cbn [_save_cache cache cache_dict].
      rewrite lookup_insert_ne by done. by rewrite Hc.
    + by rewrite Hc.
  - destruct (_ && _); [|cbn [fst snd]; by rewrite Hc].
    match goal with
    | |- context [attempts E n ?i' ma model sp up key content prefer ?le' w1] =>
        destruct (IH i' ma model sp up key content prefer le' w1) as [Hk Hp]
    end.
    split; [intros k Hne; rewrite (Hk k Hne) | intros Hf; rewrite (Hp Hf)];
      by rewrite Hc.
Qed.

Lemma models_cache_frame models :
  forall left per sp up key content prefer le w,
    (forall k, k <> key ->
        cache_dict (cache (snd (models_loop E models left per sp up key content
                                            prefer le w))) !! k
        = cache_dict (cache w) !! k)
    /\ (prefer = false ->
        cache (snd (models_loop E models left per sp up key content prefer le w))
        = cache w).
Proof.
  induction models as [|model models IH];
    intros left per sp up key content prefer le w; cbn [models_loop]; [done|].
  destruct (_ <=? 0)%Z; [done|].
  pose proof (attempts_cache_frame (Z.to_nat (Z.min per left)) 1%Z
                (Z.min per left) model sp up key content prefer le w)
    as [Hk Hp].
  destruct (attempts E _ _ _ _ _ _ _ _ _ _ w) as [[code|le1] w1];
    cbn [fst snd] in *; [done|].
  destruct (_ <=? 0)%Z; [done|].
  destruct (IH (left - Z.min per left)%Z per sp up key content prefer le1 w1)
    as [Hk' Hp'].
  split; [intros k Hne; rewrite (Hk' k Hne); by apply Hk
         | intros Hf; rewrite (Hp' Hf); by apply Hp].
Qed.

(** X8.  A call touches the cache only under the key of its two prompts:
    the entry of every other key is after the call what it was before,
    and with [prefer_cached=False] the dict the cache file stands for is
    not changed at all. *)
Theorem cache_touched_only_at_own_key sp up content ta pa prefer w :
  (forall k, k <> _prompt_key E sp up ->
      cache_dict (cache (snd (gemini_call_for_code E sp up content ta pa
                                                   prefer w))) !! k
      = cache_dict (cache w) !! k)
  /\ (prefer = false ->
      cache_dict (cache (snd (gemini_call_for_code E sp up content ta pa
                                                   prefer w)))
      = cache_dict (cache w)).
Proof.
  assert (Hun : forall key w0,
    (forall k, k <> key ->
        cache_dict (cache (snd (generate_uncached E sp up key content ta pa
                                                  prefer w0))) !! k
        = cache_dict (cache w0) !! k)
    /\ (prefer = false ->
        cache_dict (cache (snd (generate_uncached E sp up key content ta pa
                                                  prefer w0)))
        = cache_dict (cache w0))).
  { intros key w0. unfold generate_uncached.
    pose proof (models_cache_frame (MODEL_CHAIN E) ta pa sp up key content
                  prefer None w0) as [Hk Hp].
    destruct (models_loop E _ _ _ _ _ _ _ _ _ w0) as [[code|le] w1];
      cbn [fst snd] in *.
    - split; [done|]. intros Hf. by rewrite (Hp Hf).
    - pose proof (load_cache_keeps_dict w1) as Hl.
      destruct (_load_cache w1) as [c w2]. cbn [fst snd] in Hl.
      assert (Hw2 : forall r,
                snd (match c !! key with
                     | Some code => (GRet code, w2)
                     | None => (GRaise r, w2)
                     end) = w2) by (intros r; by destruct (c !! key)).
      rewrite Hw2, Hl. split; [done|]. intros Hf. by rewrite (Hp Hf). }
  unfold gemini_call_for_code. destruct prefer; [|apply Hun].
  pose proof (load_cache_keeps_dict w) as Hl.
  destruct (_load_cache w) as [c w0]. cbn [fst snd] in Hl.
  split; [|done]. rewrite <- Hl.
  destruct (c !! _) as [[|x cached]|]; try done; apply Hun.
Qed.

(** X10.  Code that does not come from the cache is not blank: when the
    cache has no entry under the key of the prompts and the call returns
    code, at least one request was made and the code has a character that
    is not white space. *)
Theorem fresh_code_is_not_blank sp up content ta pa prefer w code w' :
  cache_dict (cache w) !! _prompt_key E sp up = None ->
  gemini_call_for_code E sp up content ta pa prefer w = (GRet code, w') ->
  strip code <> []
  /\ (length (net_calls w) < length (net_calls w'))%nat.
Proof.
  intros Hnone.
  assert (Hun : forall w0,
            cache_dict (cache w0) = cache_dict (cache w) ->
            net_calls w0 = net_calls w ->
            generate_uncached E sp up (_prompt_key E sp up) content ta pa
                              prefer w0 = (GRet code, w') ->
            strip code <> []
            /\ (length (net_calls w) < length (net_calls w'))%nat).
  { intros w0 Hd0 Hc0. unfold generate_uncached.
    pose proof (models_requests (MODEL_CHAIN E) ta pa sp up
                  (_prompt_key E sp up) content prefer None w0) as [_ Hd].
    destruct (models_loop E _ _ _ _ _ _ _ _ _ w0) as [[code1|le] w1] eqn:Hloop;
      cbn [fst snd] in Hd.
    - intros [= <- <-]. rewrite <- Hc0. by apply Hd.
    - apply models_failed_keep_cache in Hloop.
      pose proof (load_cache_dict w1) as Hl.
      destruct (_load_cache w1) as [c w2]. cbn [fst snd] in Hl. subst c.
      by rewrite Hloop, Hd0, Hnone. }
  unfold gemini_call_for_code. destruct prefer; [|by apply Hun].
  pose proof (load_cache_dict w) as Hd.
  pose proof (load_cache_keeps_dict w) as Hk.
  pose proof (load_cache_same_calls w) as Hc.
  destruct (_load_cache w) as [c w0]. cbn [fst snd] in *. subst c.
  rewrite Hnone. by apply Hun.
Qed.


(** X9.  From a cache that maps no key to the empty string a call never
    returns empty code, whichever of its three exits produces it (the
    cache at entry, a generation, or the cache as a last resort), and it
    leaves the cache in that state. *)
Theorem returned_code_is_not_empty sp up content ta pa prefer w code w' :
  cache_ok w ->
  gemini_call_for_code E sp up content ta pa prefer w = (GRet code, w') ->
  code <> [] /\ cache_ok w'.
Proof.
  intros Hok Hcall. split.
  2:{ pose proof (calls_keep_cache_ok E sp up content ta pa prefer w Hok) as H.
      by rewrite Hcall in H. }
  assert (Hun : forall key w0,
            cache_ok w0 ->
            generate_uncached E sp up key content ta pa prefer w0
            = (GRet code, w') ->
            code <> []).
  { intros key w0 Hok0. unfold generate_uncached.
    pose proof (models_requests (MODEL_CHAIN E) ta pa sp up key content prefer
                  None w0) as [_ Hd].
    destruct (models_loop E _ _ _ _ _ _ _ _ _ w0) as [[code1|le] w1] eqn:Hloop;
      cbn [fst snd] in Hd.
    - intros [= <- <-]. destruct (Hd code1 eq_refl) as [Hs _].
      intros ->. by apply Hs.
    - apply models_failed_keep_cache in Hloop.
      pose proof (load_cache_dict w1) as Hl.
      destruct (_load_cache w1) as [c w2]. cbn [fst snd] in Hl. subst c.
      rewrite Hloop. destruct (cache_dict (cache w0) !! key) as [code1|] eqn:Hk;
        [|done].
      intros [= <- <-] ->. by apply (Hok0 key). }
  revert Hcall. unfold gemini_call_for_code.
  destruct prefer; [|by apply Hun].
  pose proof (load_cache_dict w) as Hd.
  pose proof (load_cache_keeps_dict w) as Hk.
  destruct (_load_cache w) as [c w0]. cbn [fst snd] in *. subst c.
  assert (Hok0 : cache_ok w0) by (intros k; rewrite Hk; apply Hok).
  destruct (cache_dict (cache w) !! _) as [[|x cached]|];
    [by apply Hun | by intros [= <- <-] | by apply Hun].
Qed.

End Adapter.




Lemma returned_code_is_not_empty_witness :
  T "print(1)" <> []
  /\ cache_ok (snd (gemini_call_for_code (gemini_scenario fenced_answer)
                      sys_prompt user_prompt None 6 3 true fresh_gworld)).
Proof.
  apply (returned_code_is_not_empty (gemini_scenario fenced_answer) sys_prompt
           user_prompt None 6 3 true fresh_gworld).
  - exact fresh_cache_ok.
  - by vm_compute.
Defined.

Lemma fresh_code_is_not_blank_witness :
  strip (T "print(1)") <> []
  /\ (length (net_calls fresh_gworld)
      < length (net_calls (snd (gemini_call_for_code
                                  (gemini_scenario fenced_answer) sys_prompt
                                  user_prompt None 6 3 false fresh_gworld))))%nat.
Proof.
  apply (fresh_code_is_not_blank (gemini_scenario fenced_answer) sys_prompt
           user_prompt None 6 3 false fresh_gworld).
  - by vm_compute.
  - by vm_compute.
Defined.

End GeminiMoreFacts.

(** ** The code extractors: shape of the result *)

Module ExtractorMoreFacts.
Import Text Regex Extractor TextFacts.

Lemma lstrip_head s c : head (lstrip s) = Some c -> isspace c = false.
Proof.
  induction s as [|x s IH]; simpl; [done|].
  destruct (isspace x) eqn:Hx; [done|]. simpl. by intros [= <-].
Qed.

Lemma lstrip_id s :
  (forall c, head s = Some c -> isspace c = false) -> lstrip s = s.
Proof. destruct s as [|x s]; simpl; [done|]. intros H. by rewrite H. Qed.

Lemma lstrip_suffix s : exists p, s = p ++ lstrip s.
Proof.
  induction s as [|x s [p IH]]; simpl; [by exists []|].
  destruct (isspace x); [|by exists []].
  exists (x :: p). simpl. by rewrite <- IH.
Qed.

Lemma rstrip_prefix s : exists t, s = rstrip s ++ t.
Proof.
  unfold rstrip. destruct (lstrip_suffix (rev s)) as [p Hp].
  exists (rev p). rewrite <- rev_app_distr, <- Hp. by rewrite rev_involutive.
Qed.

Lemma head_rev (s : text) : head (rev s) = last s.
Proof.
  induction s as [|x s IH] using rev_ind; [done|].
  by rewrite rev_app_distr, last_snoc.
Qed.

Lemma last_rev (s : text) : last (rev s) = head s.
Proof. by rewrite <- head_rev, rev_involutive. Qed.

Lemma rstrip_last s c : last (rstrip s) = Some c -> isspace c = false.
Proof. unfold rstrip. rewrite last_rev. apply lstrip_head. Qed.

Lemma rstrip_id s :
  (forall c, last s = Some c -> isspace c = false) -> rstrip s = s.
Proof.
  intros H. unfold rstrip. rewrite lstrip_id; [apply rev_involutive|].
  intros c. rewrite head_rev. apply H.
Qed.

Lemma strip_head s c : head (strip s) = Some c -> isspace c = false.
Proof.
  unfold strip. destruct (rstrip_prefix (lstrip s)) as [t Ht].
  intros Hc. apply (lstrip_head s). rewrite Ht.
  by destruct (rstrip (lstrip s)).
Qed.

Lemma strip_last s c : last (strip s) = Some c -> isspace c = false.
Proof. apply rstrip_last. Qed.

Lemma strip_idem s : strip (strip s) = strip s.
Proof.
  unfold strip at 1. rewrite lstrip_id by apply strip_head.
  apply rstrip_id, strip_last.
Qed.

Lemma strip_embedded s : embeds (strip s) s.
Proof.
  destruct (lstrip_suffix s) as [p Hp].
  destruct (rstrip_prefix (lstrip s)) as [t Ht].
  exists p, t. unfold strip. by rewrite <- Ht.
Qed.

Lemma scan_lines_stripped pat lines i rest code :
  scan_lines pat lines i rest = Some code -> exists x, code = strip x.
Proof.
  revert i. induction rest as [|ln rest IH]; intros i; simpl; [done|].
  destruct (matches pat ln); [intros [= <-]; by eexists | apply IH].
Qed.

Lemma extract_stripped_fixed pat txt :
  exists x, extract_stripped pat (strip txt) = strip x.
Proof.
  unfold extract_stripped.
  destruct (last (findall _CODE_BLOCK_RE (strip txt))) as [b|];
    [by eexists|].
  destruct (scan_lines pat _ 0 _) as [code|] eqn:Hscan; [|by eexists].
  by apply scan_lines_stripped in Hscan.
Qed.

(** X11.  What the extractors return is stripped: stripping it again
    changes nothing, and it neither starts nor ends with a white space
    character.  This holds for [_extract_code] and for [_clean_code], on
    each of their three exits. *)
Theorem extracted_code_is_stripped :
  (forall raw : option text,
      strip (_extract_code raw) = _extract_code raw
      /\ forall c, head (_extract_code raw) = Some c
                   \/ last (_extract_code raw) = Some c ->
                   isspace c = false)
  /\ (forall raw : text,
      strip (_clean_code raw) = _clean_code raw
      /\ forall c, head (_clean_code raw) = Some c
                   \/ last (_clean_code raw) = Some c ->
                   isspace c = false).
Proof.
  assert (H : forall pat txt,
            strip (extract_stripped pat (strip txt))
            = extract_stripped pat (strip txt)
            /\ forall c, head (extract_stripped pat (strip txt)) = Some c
                         \/ last (extract_stripped pat (strip txt)) = Some c ->
                         isspace c = false).
  { intros pat txt. destruct (extract_stripped_fixed pat txt) as [x ->].
    split; [apply strip_idem|].
    intros c [Hc|Hc]; [by apply (strip_head x) | by apply (strip_last x)]. }
  split; intros raw; apply H.
Qed.

(** *** No fence is left in a block *)

Lemma backquote_ignorecase a :
  eqc (lower_char a) (lower_char (chr 96)) = true -> a = chr 96.
Proof.
  destruct a as [[] [] [] [] [] [] [] []]; vm_compute; intros H;
    first [reflexivity | discriminate H].
Qed.

Lemma fence_matched {R} s cap (k : @cont R) x :
  run (Lit true fence) s cap k = Some x ->
  exists s', s = fence ++ s' /\ k s' cap = Some x.
Proof.
  change (Lit true fence)
    with (Cat (Chr true (chr 96)) (Cat (Chr true (chr 96)) (Chr true (chr 96)))).
  cbn [run]. destruct s as [|a [|b [|c s']]]; try done.
  - by destruct (eqc _ _).
  - destruct (eqc (lower_char a) _); [|done]. by destruct (eqc _ _).
  - destruct (eqc (lower_char a) _) eqn:Ha; [|done].
    destruct (eqc (lower_char b) _) eqn:Hb; [|done].
    destruct (eqc (lower_char c) _) eqn:Hc; [|done].
    apply backquote_ignorecase in Ha, Hb, Hc. subst. intros Hk. by exists s'.
Qed.

Lemma fence_matches {R} s' cap (k : @cont R) :
  run (Lit true fence) (fence ++ s') cap k = k s' cap.
Proof. reflexivity. Qed.

(** The lazy star gives the text to its continuation at the first place
    where the continuation succeeds. *)
Lemma star_lazy_first {R} s cap (k : @cont R) x :
  star_lazy Any s cap k = Some x ->
  exists n, (n <= length s)%nat /\ k (drop n s) cap = Some x
            /\ forall j, (j < n)%nat -> k (drop j s) cap = None.
Proof.
  induction s as [|c s IH]; simpl; intros H.
  - destruct (k [] cap) eqn:Hk; [|done]. injection H as ->.
    exists 0%nat. split; [done|]. split; [done | intros j Hj; lia].
  - destruct (k (c :: s) cap) eqn:Hk.
    + injection H as ->. exists 0%nat. split; [lia|].
      split; [done | intros j Hj; lia].
    + destruct (IH H) as (n & Hn & Hat & Hbefore).
      exists (S n). split; [lia|]. split; [done|].
      intros [|j] Hj; [done|]. apply Hbefore. lia.
Qed.

Lemma run_cat {R} r1 r2 s cap (k : @cont R) x :
  run (Cat r1 r2) s cap k = Some x ->
  exists s1 cap1, run r2 s1 cap1 k = Some x.
Proof.
  intros H. apply (JsonFacts.run_shorter r1) in H as (s1 & cap1 & _ & H).
  by exists s1, cap1.
Qed.

(** Group 1 of a match of [_CODE_BLOCK_RE] holds no fence. *)
Lemma block_has_no_fence s cap rest :
  re_match _CODE_BLOCK_RE s = Some (cap, rest) ->
  exists b, cap = Some b /\ ~ embeds fence b.
Proof.
  unfold re_match.
  change _CODE_BLOCK_RE
    with (Cat (Lit true fence)
              (Cat (Opt (Lit true (T "python")))
                   (Cat (Star true isspace)
                        (Cat (Grp (Star false Any)) (Lit true fence))))).
  intros H.
  apply run_cat in H as (s1 & cap1 & H).
  apply run_cat in H as (s2 & cap2 & H).
  apply run_cat in H as (s3 & cap3 & H).
  change (star_lazy Any s3 cap3
            (fun s' _ =>
               run (Lit true fence) s' (Some (take (length s3 - length s') s3))
                   (fun s'' cap' => Some (cap', s'')))
          = Some (cap, rest)) in H.
  apply star_lazy_first in H as (n & Hn & Hat & Hbefore).
  apply fence_matched in Hat as (s' & Hs' & [= <- <-]).
  eexists. split; [done|].
  rewrite length_drop.
  replace (length s3 - (length s3 - n))%nat with n by lia.
  intros (pre & post & Hb).
  assert (Hlen : (length pre < n)%nat).
  { apply (f_equal length) in Hb.
    rewrite length_take_le, !length_app in Hb by done. simpl in Hb. lia. }
  specialize (Hbefore _ Hlen).
  rewrite <- (take_drop n s3), Hb, <- !app_assoc, drop_app_length in Hbefore.
  by rewrite fence_matches in Hbefore.
Qed.

Lemma blocks_have_no_fence s :
  forall skip, Forall (fun b => ~ embeds fence b)
                      (findall_from _CODE_BLOCK_RE skip s).
Proof.
  induction s as [|c s IH]; intros [|skip]; cbn [findall_from].
  - destruct (re_match _CODE_BLOCK_RE []) as [[cap rest]|] eqn:Hm;
      [|constructor].
    apply block_has_no_fence in Hm as (b & -> & Hb). by repeat constructor.
  - constructor.
  - destruct (re_match _CODE_BLOCK_RE (c :: s)) as [[cap rest]|] eqn:Hm;
      [|apply IH].
    apply block_has_no_fence in Hm as (b & -> & Hb).
    constructor; [done | apply IH].
  - apply IH.
Qed.

Lemma extract_stripped_no_fence pat txt :
  findall _CODE_BLOCK_RE txt <> [] ->
  ~ embeds fence (extract_stripped pat txt).
Proof.
  unfold extract_stripped. intros Hsome.
  pose proof (blocks_have_no_fence txt 0) as Hall.
  fold (findall _CODE_BLOCK_RE txt) in Hall.
  destruct (last (findall _CODE_BLOCK_RE txt)) as [b|] eqn:Hlast;
    [|by apply last_None in Hlast].
  apply last_Some in Hlast as [bs Hbs]. rewrite Hbs in Hall.
  apply Forall_app in Hall as [_ Hb]. apply Forall_inv in Hb.
  intros (pre & post & Hfence). apply Hb.
  destruct (strip_embedded b) as (p & t & Heq).
  exists (p ++ pre), (post ++ t). rewrite Heq, Hfence.
  by rewrite <- !app_assoc.
Qed.

(** X12.  When the answer holds a fenced block, the code that is returned
    holds no fence (three backquotes) any more: the block ends at the
    first fence after its start, and the last block is what is returned.
    This holds for [_extract_code] and for [_clean_code]. *)
Theorem fenced_answer_loses_its_fences :
  (forall raw : option text,
      findall _CODE_BLOCK_RE (strip (default [] raw)) <> [] ->
      ~ embeds fence (_extract_code raw))
  /\ (forall raw : text,
      findall _CODE_BLOCK_RE (strip raw) <> [] ->
      ~ embeds fence (_clean_code raw)).
Proof.
  split; intros raw; apply extract_stripped_no_fence.
Qed.

Lemma fenced_answer_loses_its_fences_witness :
  findall _CODE_BLOCK_RE
    (strip (T "Here:" ++ nl ++ fence ++ T "python" ++ nl ++ T "print(1)" ++ nl
              ++ fence ++ nl ++ T "Run it."))
  <> []
  /\ ~ embeds fence
       (_clean_code (T "Here:" ++ nl ++ fence ++ T "python" ++ nl
                       ++ T "print(1)" ++ nl ++ fence ++ nl ++ T "Run it.")).
Proof.
  assert (H : findall _CODE_BLOCK_RE
                (strip (T "Here:" ++ nl ++ fence ++ T "python" ++ nl
                          ++ T "print(1)" ++ nl ++ fence ++ nl ++ T "Run it."))
              <> []) by by vm_compute.
  split; [exact H|].
  exact (proj2 fenced_answer_loses_its_fences _ H).
Defined.

End ExtractorMoreFacts.

(** ** llm_calls/claude_call.py: the retry loop *)

Module ClaudeFacts.
Import Text Extractor ClaudeAdapter.

Lemma answer_at_next E w rq j :
  answer_at E (w ++ [rq]) rq j = answer_at E w rq (S j).
Proof.
  unfold answer_at. rewrite length_app. simpl. f_equal. lia.
Qed.

Lemma answer_at_first E w rq :
  messages_create E (length w) rq = answer_at E w rq 0.
Proof. unfold answer_at. by rewrite Nat.add_0_r. Qed.

Section Adapter.
Variable E : cenv.

(** The loop, from any value of [attempt]: the requests it adds are
    copies of one request, and its three exits are told apart by the
    answers to them. *)
Lemma claude_loop_outcomes fuel :
  forall attempt max_retries sp up content w,
    (Z.to_nat (max_retries - attempt) <= fuel)%nat ->
    exists n,
      snd (claude_loop E fuel attempt max_retries sp up content w)
      = w ++ repeat (Request sp (contents_of up content)) n
      /\ (n <= Z.to_nat (max_retries - attempt))%nat
      /\ match fst (claude_loop E fuel attempt max_retries sp up content w) with
         | CRet None => (max_retries <= attempt)%Z /\ n = 0%nat
         | CRet (Some code) =>
             exists m t,
               n = S m
               /\ raw_text (answer_at E w (Request sp (contents_of up content)) m)
                  = Some t
               /\ code = _clean_code t
               /\ forall j, (j < m)%nat ->
                    raw_text (answer_at E w (Request sp (contents_of up content)) j)
                    = None
         | CRaise msg =>
             (attempt < max_retries)%Z
             /\ n = Z.to_nat (max_retries - attempt)
             /\ msg = T "Claude API call failed after " ++ str_int max_retries
                        ++ T " retries."
             /\ forall j, (j < n)%nat ->
                  raw_text (answer_at E w (Request sp (contents_of up content)) j)
                  = None
         end.
Proof.
  induction fuel as [|fuel IH]; intros attempt mr sp up content w Hfuel;
    cbn [claude_loop].
  - exists 0%nat. cbn [fst snd repeat]. rewrite app_nil_r.
    split; [done|]. split; [lia|]. split; [lia | done].
  - destruct (Z.ltb_spec attempt mr) as [Hlt|Hge].
    2:{ exists 0%nat. cbn [fst snd repeat]. rewrite app_nil_r.
        split; [done|]. split; [lia|]. split; [lia | done]. }
    set (rq := Request sp (contents_of up content)) in *.
    rewrite (answer_at_first E w rq).
    destruct (raw_text (answer_at E w rq 0)) as [t|] eqn:Hraw.
    { exists 1%nat. cbn [fst snd repeat]. split; [done|]. split; [lia|].
      exists 0%nat, t. repeat split; [done|]. intros j Hj. lia. }
    destruct (Z.ltb_spec (attempt + 1) mr) as [Hmore|Hlast].
    + destruct (IH (attempt + 1)%Z mr sp up content (w ++ [rq])) as
        (n & Hw & Hn & Hres); [lia|]. fold rq in Hw, Hres.
      exists (S n). rewrite Hw. cbn [repeat].
      split; [by rewrite <- app_assoc|]. split; [lia|].
      destruct (fst (claude_loop E fuel (attempt + 1) mr sp up content
                                 (w ++ [rq]))) as [[code|]|msg].
      * destruct Hres as (m & t & -> & Ht & -> & Hbefore).
        exists (S m), t. rewrite answer_at_next in Ht.
        repeat split; [done|]. intros [|j] Hj; [done|].
        rewrite <- answer_at_next. apply Hbefore. lia.
      * lia.
      * destruct Hres as (_ & -> & -> & Hbefore).
        split; [done|]. split; [lia|]. split; [done|].
        intros [|j] Hj; [done|]. rewrite <- answer_at_next.
        apply Hbefore. lia.
    + exists 1%nat. cbn [fst snd repeat]. split; [done|]. split; [lia|].
      split; [done|]. split; [lia|]. split; [done|].
      intros [|j] Hj; [done | lia].
Qed.

(** X13.  The three exits of [claude_call_for_code].  A call sends the
    same request [n] times, [n] being at most [max_retries].  It returns
    None without any request exactly when [max_retries] is not positive;
    it returns cleaned code for the first answer that has text, every
    earlier answer having had none; and it raises the RuntimeError that
    names [max_retries] after exactly [max_retries] answers without
    text. *)
Theorem claude_call_exits sp up content max_retries w :
  exists n,
    snd (claude_call_for_code E sp up content max_retries w)
    = w ++ repeat (Request sp (contents_of up content)) n
    /\ (n <= Z.to_nat max_retries)%nat
    /\ match fst (claude_call_for_code E sp up content max_retries w) with
       | CRet None => (max_retries <= 0)%Z /\ n = 0%nat
       | CRet (Some code) =>
           exists m t,
             n = S m
             /\ raw_text (answer_at E w (Request sp (contents_of up content)) m)
                = Some t
             /\ code = _clean_code t
             /\ forall j, (j < m)%nat ->
                  raw_text (answer_at E w (Request sp (contents_of up content)) j)
                  = None
       | CRaise msg =>
           (0 < max_retries)%Z
           /\ n = Z.to_nat max_retries
           /\ msg = T "Claude API call failed after " ++ str_int max_retries
                      ++ T " retries."
           /\ forall j, (j < n)%nat ->
                raw_text (answer_at E w (Request sp (contents_of up content)) j)
                = None
       end.
Proof.
  unfold claude_call_for_code.
  destruct (claude_loop_outcomes (Z.to_nat max_retries) 0 max_retries sp up
              content w) as (n & Hw & Hn & Hres); [by rewrite Z.sub_0_r|].
  rewrite Z.sub_0_r in *. by exists n.
Qed.

End Adapter.

End ClaudeFacts.

(** ** llm_calls/openai_call.py: the retry loop and the model cycle *)

Module OpenAIFacts.
Import Text Extractor OpenAIAdapter.

Lemma map_seq_step {A} (f : nat -> A) n :
  map f (seq 0 (S n)) = f 0%nat :: map (fun j => f (S j)) (seq 0 n).
Proof. simpl. by rewrite <- seq_shift, map_map. Qed.

Section Adapter.
Variable E : oenv.

(** The request of attempt [a + j], and the answer to it when it is the
    [j]-th request made from [w] on. *)
Local Abbreviation rq_from cycle sp up content a j :=
  (Request (model_at cycle (Z.of_nat (a + j))) sp (contents_of up content)).
Local Abbreviation ans_from cycle sp up content w a j :=
  (responses_create E (length (requests w) + j)
                    (rq_from cycle sp up content a j)).

Lemma openai_loop_outcomes fuel :
  forall a max_retries cycle sp up content w,
    (Z.to_nat (max_retries - Z.of_nat a) <= fuel)%nat ->
    exists n,
      requests (snd (openai_loop E fuel (Z.of_nat a) max_retries cycle sp up
                                 content w))
      = requests w ++ map (fun j => rq_from cycle sp up content a j) (seq 0 n)
      /\ (n <= Z.to_nat (max_retries - Z.of_nat a))%nat
      /\ match fst (openai_loop E fuel (Z.of_nat a) max_retries cycle sp up
                                content w) with
         | ORet None =>
             (max_retries <= Z.of_nat a)%Z /\ n = 0%nat
             /\ temp_py (snd (openai_loop E fuel (Z.of_nat a) max_retries cycle
                                          sp up content w)) = temp_py w
         | OZeroDivision =>
             (Z.of_nat a < max_retries)%Z /\ cycle = [] /\ n = 0%nat
             /\ temp_py (snd (openai_loop E fuel (Z.of_nat a) max_retries cycle
                                          sp up content w)) = temp_py w
         | ORet (Some code) =>
             cycle <> []
             /\ exists m t,
                  n = S m
                  /\ output_of (ans_from cycle sp up content w a m) = Some t
                  /\ code = _clean_code (strip t)
                  /\ temp_py (snd (openai_loop E fuel (Z.of_nat a) max_retries
                                               cycle sp up content w))
                     = Some (strip t)
                  /\ forall j, (j < m)%nat ->
                       output_of (ans_from cycle sp up content w a j) = None
         | ORaise msg =>
             cycle <> [] /\ (Z.of_nat a < max_retries)%Z
             /\ n = Z.to_nat (max_retries - Z.of_nat a)
             /\ msg = T "OpenAI API call failed after " ++ str_int max_retries
                        ++ T " retries."
             /\ temp_py (snd (openai_loop E fuel (Z.of_nat a) max_retries cycle
                                          sp up content w)) = temp_py w
             /\ forall j, (j < n)%nat ->
                  output_of (ans_from cycle sp up content w a j) = None
         end.
Proof.
  induction fuel as [|fuel IH]; intros a mr cycle sp up content w Hfuel;
    cbn [openai_loop].
  - exists 0%nat. cbn [fst snd seq map]. rewrite app_nil_r.
    split; [done|]. split; [lia|]. split; [lia | done].
  - destruct (Z.ltb_spec (Z.of_nat a) mr) as [Hlt|Hge].
    2:{ exists 0%nat. cbn [fst snd seq map]. rewrite app_nil_r.
        split; [done|]. split; [lia|]. split; [lia | done]. }
    destruct cycle as [|m0 cycle'] eqn:Hcycle.
    { exists 0%nat. cbn [fst snd seq map]. rewrite app_nil_r.
      split; [done|]. split; [lia | done]. }
    rewrite <- Hcycle. assert (Hne : cycle <> []) by by rewrite Hcycle.
    clear Hcycle m0 cycle'.
    destruct (output_of (responses_create E (length (requests w))
                (Request (model_at cycle (Z.of_nat a)) sp
                         (contents_of up content)))) as [t|] eqn:Hout.
    { exists 1%nat. cbn [fst snd seq map requests temp_py].
      rewrite !Nat.add_0_r.
      split; [done|]. split; [lia|]. split; [done|].
      exists 0%nat, t. rewrite !Nat.add_0_r.
      repeat split; [done..|]. intros j Hj. lia. }
    replace (Z.of_nat a + 1)%Z with (Z.of_nat (S a)) by lia.
    destruct (Z.ltb_spec (Z.of_nat (S a)) mr) as [Hmore|Hlast].
    + set (w1 := OWorld _ _).
      destruct (IH (S a) mr cycle sp up content w1) as (n & Hw & Hn & Hres);
        [lia|].
      assert (Hshift : forall j,
                ans_from cycle sp up content w1 (S a) j
                = ans_from cycle sp up content w a (S j)).
      { intros j. subst w1. cbn [requests]. rewrite length_app. simpl.
        replace (length (requests w) + 1 + j)%nat
          with (length (requests w) + S j)%nat by lia.
        by rewrite (Nat.add_succ_r a j). }
      exists (S n). rewrite Hw, map_seq_step. subst w1. cbn [requests temp_py].
      split.
      { rewrite <- app_assoc, Nat.add_0_r. simpl. do 2 f_equal. apply map_ext.
        intros j. by rewrite (Nat.add_succ_r a j). }
      split; [lia|].
      destruct (fst (openai_loop E fuel (Z.of_nat (S a)) mr cycle sp up content
                                 _)) as [[code|]|msg|].
      * destruct Hres as (_ & m & t & -> & Ht & -> & Htemp & Hbefore).
        split; [done|]. exists (S m), t. rewrite Hshift in Ht.
        repeat split; [done..|]. intros [|j] Hj;
          [by rewrite !Nat.add_0_r|].
        rewrite <- Hshift. apply Hbefore. lia.
      * lia.
      * destruct Hres as (_ & _ & -> & -> & Htemp & Hbefore).
        split; [done|]. split; [done|]. split; [lia|]. split; [done|].
        split; [done|]. intros [|j] Hj; [by rewrite !Nat.add_0_r|].
        rewrite <- Hshift. apply Hbefore. lia.
      * by destruct Hres as (_ & -> & _).
    + exists 1%nat. cbn [fst snd seq map requests temp_py].
      rewrite !Nat.add_0_r.
      split; [done|]. split; [lia|]. split; [done|]. split; [done|].
      split; [lia|]. split; [done|]. split; [done|].
      intros [|j] Hj; [by rewrite !Nat.add_0_r | lia].
Qed.

(** X14.  The exits of [openai_call_for_code_responses].  The [j]-th
    request of a call goes to the model [models_cycle[j % len]], and at
    most [max_retries] requests are made.  The call returns None without
    a request exactly when [max_retries] is not positive; with an empty
    cycle and a positive [max_retries] it ends in a ZeroDivisionError
    before any request; it returns the cleaned code of the first answer
    whose [output_text] is not empty, after writing that text, stripped,
    to temp.py; and it raises the RuntimeError that names [max_retries]
    after exactly [max_retries] answers without text, temp.py being left
    as it was. *)
Theorem openai_call_exits sp up content max_retries cycle w :
  exists n,
    requests (snd (openai_call_for_code_responses E sp up content max_retries
                                                  cycle w))
    = requests w ++ map (request_at cycle sp up content) (seq 0 n)
    /\ (n <= Z.to_nat max_retries)%nat
    /\ match fst (openai_call_for_code_responses E sp up content max_retries
                                                 cycle w) with
       | ORet None =>
           (max_retries <= 0)%Z /\ n = 0%nat
           /\ temp_py (snd (openai_call_for_code_responses E sp up content
                              max_retries cycle w)) = temp_py w
       | OZeroDivision =>
           (0 < max_retries)%Z /\ cycle = [] /\ n = 0%nat
           /\ temp_py (snd (openai_call_for_code_responses E sp up content
                              max_retries cycle w)) = temp_py w
       | ORet (Some code) =>
           cycle <> []
           /\ exists m t,
                n = S m
                /\ output_of (answer_at E w cycle sp up content m) = Some t
                /\ code = _clean_code (strip t)
                /\ temp_py (snd (openai_call_for_code_responses E sp up content
                                   max_retries cycle w))
                   = Some (strip t)
                /\ forall j, (j < m)%nat ->
                     output_of (answer_at E w cycle sp up content j) = None
       | ORaise msg =>
           cycle <> [] /\ (0 < max_retries)%Z
           /\ n = Z.to_nat max_retries
           /\ msg = T "OpenAI API call failed after " ++ str_int max_retries
                      ++ T " retries."
           /\ temp_py (snd (openai_call_for_code_responses E sp up content
                              max_retries cycle w)) = temp_py w
           /\ forall j, (j < n)%nat ->
                output_of (answer_at E w cycle sp up content j) = None
       end.
Proof.
  unfold openai_call_for_code_responses.
  destruct (openai_loop_outcomes (Z.to_nat max_retries) 0 max_retries cycle sp
              up content w) as (n & Hw & Hn & Hres);
    [by rewrite Z.sub_0_r|].
  change (Z.of_nat 0) with 0%Z in *. rewrite Z.sub_0_r in *. by exists n.
Qed.


(** X16.  The OpenAI adapter tests [output_text] before stripping it: an
    answer that is not empty but holds only white space is taken at the
    first attempt, the empty string is returned as code and written to
    temp.py, and no retry is made. *)
Theorem openai_accepts_blank_answer sp up content max_retries cycle w t :
  (0 < max_retries)%Z ->
  cycle <> [] ->
  answer_at E w cycle sp up content 0 = Output (Some t) ->
  t <> [] ->
  strip t = [] ->
  openai_call_for_code_responses E sp up content max_retries cycle w
  = (ORet (Some []),
     OWorld (requests w ++ [request_at cycle sp up content 0]) (Some [])).
Proof.
  intros Hpos Hne Hans Ht Hblank.
  unfold openai_call_for_code_responses.
  destruct (Z.to_nat max_retries) as [|fuel] eqn:Hfuel; [lia|].
  cbn [openai_loop]. destruct (Z.ltb_spec 0 max_retries) as [_|]; [|lia].
  destruct cycle as [|m0 cycle']; [done|].
  unfold answer_at, request_at in Hans. rewrite Nat.add_0_r in Hans.
  change (Z.of_nat 0) with 0%Z in Hans. rewrite Hans.
  destruct t as [|c t']; [done|]. cbn [output_of requests].
  rewrite Hblank. reflexivity.
Qed.

End Adapter.


Lemma openai_accepts_blank_answer_witness :
  openai_call_for_code_responses (OEnv (fun _ _ => Output (Some nl)))
    (T "Write Python.") (T "Print one.") None 5 [T "gpt-5"; T "gpt-4.1"]
    (OWorld [] None)
  = (ORet (Some []),
     OWorld ([] ++ [request_at [T "gpt-5"; T "gpt-4.1"] (T "Write Python.")
                               (T "Print one.") None 0])
            (Some [])).
Proof.
  apply (openai_accepts_blank_answer (OEnv (fun _ _ => Output (Some nl)))
           (T "Write Python.") (T "Print one.") None 5
           [T "gpt-5"; T "gpt-4.1"] (OWorld [] None) nl).
  - lia.
  - done.
  - reflexivity.
  - done.
  - by vm_compute.
Defined.

End OpenAIFacts.
